(** * prometheus-sql: query results as labelled gauges (set.go)

    A shallow embedding of [set.go]: the facet-key encoding of
    [registerMetric], the coercion of [setValueForResult], the two
    strategies of [SetMetrics] and the reaping of [RemoveMissingMetrics],
    with the properties of the specification proved about them. *)

From Stdlib Require Import ZArith Ascii String.
From Stdlib Require Import Floats.SpecFloat.
From stdpp Require Import gmap strings list sorting pretty.

Local Open Scope string_scope.
Local Open Scope Z_scope.

(** ** Strings

    Go strings are byte sequences; they are modelled by [string], one
    [ascii] per byte.  The library functions below are given on ASCII
    text, which is what column names, label names and metric names are:
    bytes from 128 up (the UTF-8 encoding of other runes) are kept as they
    are by [ToLower] and by the JSON quoting, and each of them counts as
    a character outside [[a-zA-Z0-9_]]. *)

Module Strings.

(** [strings.ToLower] on one byte. *)
Definition lower_byte (c : ascii) : ascii :=
  let n := N_of_ascii c in
  if ((65 <=? n) && (n <=? 90))%N then ascii_of_N (n + 32) else c.

(** [strings.ToLower]. *)
Fixpoint ToLower (s : string) : string :=
  match s with
  | EmptyString => EmptyString
  | String c s' => String (lower_byte c) (ToLower s')
  end.

(** The character class of [invalidNameCharRE], [[^a-zA-Z0-9_]]. *)
Definition invalidNameChar (c : ascii) : bool :=
  let n := N_of_ascii c in
  negb (((97 <=? n) && (n <=? 122)) || ((65 <=? n) && (n <=? 90))
        || ((48 <=? n) && (n <=? 57)) || (n =? 95))%N.

(** The character class of [ignoreNameCharRE], [[%()]]. *)
Definition ignoreNameChar (c : ascii) : bool :=
  let n := N_of_ascii c in ((n =? 37) || (n =? 40) || (n =? 41))%N.

(** [re.ReplaceAllString(s, repl)] for a regular expression that is one
    character class: every matching character is replaced by [repl]. *)
Fixpoint ReplaceAllString (class : ascii → bool) (s repl : string) : string :=
  match s with
  | EmptyString => EmptyString
  | String c s' =>
      if class c then repl +:+ ReplaceAllString class s' repl
      else String c (ReplaceAllString class s' repl)
  end.

Fixpoint TrimLeft (s : string) : string :=
  match s with
  | EmptyString => EmptyString
  | String c s' => if Ascii.is_space c then TrimLeft s' else s
  end.

(** [strings.TrimSpace]: leading and trailing white space removed. *)
Definition TrimSpace (s : string) : string :=
  String.rev (TrimLeft (String.rev (TrimLeft s))).

(** [strings.Join]. *)
Fixpoint Join (l : list string) (sep : string) : string :=
  match l with
  | [] => EmptyString
  | [s] => s
  | s :: l' => s +:+ sep +:+ Join l' sep
  end.

End Strings.

(** ** JSON text of [encoding/json] for strings *)

Module Json.

Definition dquote : ascii := "034"%char.
Definition bslash : ascii := "092"%char.

Definition hex_digit (n : N) : ascii :=
  if (n <? 10)%N then ascii_of_N (48 + n) else ascii_of_N (87 + n).

(** One byte of a string inside the quotes: the quote and the backslash
    are escaped, line feed, carriage return and tab have their short
    forms, the other control characters and [<], [>], [&] (HTML escaping
    is on in [json.Marshal]) are written as [\u00XX]. *)
Definition escape_byte (c : ascii) : string :=
  let n := N_of_ascii c in
  let bs := String bslash EmptyString in
  if (n =? 34)%N then bs +:+ String dquote EmptyString
  else if (n =? 92)%N then bs +:+ bs
  else if (n =? 10)%N then bs +:+ "n"
  else if (n =? 13)%N then bs +:+ "r"
  else if (n =? 9)%N then bs +:+ "t"
  else if ((n <? 32) || (n =? 60) || (n =? 62) || (n =? 38))%N then
    bs +:+ "u00" +:+ String (hex_digit (n / 16)) (String (hex_digit (n mod 16)) EmptyString)
  else String c EmptyString.

Fixpoint escape (s : string) : string :=
  match s with
  | EmptyString => EmptyString
  | String c s' => escape_byte c +:+ escape s'
  end.

Definition quote (s : string) : string :=
  String dquote (escape s) +:+ String dquote EmptyString.

End Json.

(** ** Values of a row

    [float64] is IEEE 754 binary64, as the [spec_float] of the standard
    library.  A row value is an [interface{}]: the three types that
    [setValueForResult] accepts, and [nil] and [bool] for its [default]
    case ([nil] is also the zero value of an unassigned [dataVal]). *)

Definition float64 : Type := spec_float.

(** [float64(t)] for an [int]: the nearest binary64, ties to even. *)
Definition float64_of_int (t : Z) : float64 := binary_normalize 53 1024 t 0 false.

Inductive Scalar : Type :=
  | VString (s : string)
  | VInt (n : Z)
  | VFloat (f : float64)
  | VBool (b : bool)
  | VNil.

(** What the Go library does with the text of a [float64]; these three
    functions are library code outside [set.go] and are taken as given:
    [strconv.ParseFloat(s, 64)] ([None] when it returns an error), the
    [%v] verb of [fmt] on a [float64], and [json.Marshal] on a [float64]
    ([None] for NaN and the infinities, which it refuses). *)
Class FloatText : Type := {
  ParseFloat : string → option float64;
  SprintFloat : float64 → string;
  MarshalFloat : float64 → option string
}.

(** ** The data of [set.go] *)

(** The [Query] that a [QueryResult] points to.  Its declaration is in
    another file of the package; the fields are the ones [set.go] reads.
    [set.go] reads [DataMetric] twice: as the condition of the guard of the
    multi-dimensional strategy ([len(row) > 1 && r.Query.DataMetric]) and
    as the column name that [strings.ToLower(k)] is compared with.  The
    two readings are kept apart: [DataMetricUnset] is the condition,
    [DataMetric] the column name. *)
Record Query : Type := mkQuery {
  Name : string;
  MultiDimensional : bool;
  DataField : string;
  DataLabels : list string;
  DataLabelName : string;
  DataMetric : string;
  DataMetricUnset : bool
}.

(** A gauge of the Prometheus client: its options and its value.  A new
    gauge holds zero. *)
Record Gauge : Type := mkGauge {
  gName : string;
  gHelp : string;
  gConstLabels : gmap string string;
  gValue : float64
}.

(** A [QueryResult] [r] with the part of the process it works on.
    [Result] maps a facet key to the address of its gauge; [gauges] is the
    store of gauge objects, addressed by position, and [registry] the set
    of addresses that [prometheus.MustRegister] has handed to the default
    registry and [prometheus.Unregister] has not taken back.  Both
    [r.Result] and the registry hold the same gauge object, so a [Set]
    through one is seen through the other.  The registry is the
    capability the program relies on: it takes every collector it is
    given. *)
Record State : Type := mkState {
  query : Query;
  Result : gmap string nat;
  gauges : list Gauge;
  registry : gset nat
}.

(** The errors that [SetMetrics] returns, in the order of [set.go]:
    - "There is more than one row in the query result - with a single column"
    - "Data metric not specified for multi-column query"
    - "Data field not specified for multi-column query"
    - "Data field not found in result set"
    - the error of [strconv.ParseFloat] on the text [t]
    - "Unhandled type", for the value [v]
    and [NilGauge] for a [Set] on a missing gauge (the nil dereference of
    [r.Result[key]]), which [registerAndSet_not_nil] shows never happens. *)
Inductive Error : Type :=
  | AmbiguousSingleColumnResult
  | MissingDataMetricColumn
  | MissingDataField
  | DataFieldNotFound
  | InvalidNumericText (t : string)
  | UnsupportedValueType (v : Scalar)
  | NilGauge.

#[export] Instance float64_eq_dec : EqDecision float64.
Proof. unfold float64. solve_decision. Defined.

#[export] Instance Scalar_eq_dec : EqDecision Scalar.
Proof. solve_decision. Defined.

#[export] Instance Error_eq_dec : EqDecision Error.
Proof. solve_decision. Defined.

#[export] Instance Query_eq_dec : EqDecision Query.
Proof. solve_decision. Defined.

#[export] Instance Gauge_eq_dec : EqDecision Gauge.
Proof. solve_decision. Defined.

#[export] Instance State_eq_dec : EqDecision State.
Proof. solve_decision. Defined.

(** A row in the order in which [range] visits its columns.  A Go map has
    no order and [range] picks one each time; a [record] fixes the one
    taken, and the same Go map is any permutation of it. *)
Definition record : Type := list (string * Scalar).
Definition records : Type := list record.

Definition with_name (q : Query) (n : string) : Query :=
  mkQuery n (MultiDimensional q) (DataField q) (DataLabels q)
          (DataLabelName q) (DataMetric q) (DataMetricUnset q).

Definition with_query (st : State) (q : Query) : State :=
  mkState q (Result st) (gauges st) (registry st).

Definition with_gauges (st : State) (h : list Gauge) : State :=
  mkState (query st) (Result st) h (registry st).

Definition set_value (g : Gauge) (f : float64) : Gauge :=
  mkGauge (gName g) (gHelp g) (gConstLabels g) f.

(** [NewQueryResult(q)] in a process with the gauges [h] and the registry
    [reg]. *)
Definition NewQueryResult (q : Query) (h : list Gauge) (reg : gset nat) : State :=
  mkState q ∅ h reg.

Section Model.
Context `{FloatText}.

(** [fmt.Sprintf("%v", v)]. *)
Definition Sprint (v : Scalar) : string :=
  match v with
  | VString s => s
  | VInt n => pretty n
  | VFloat f => SprintFloat f
  | VBool b => if b then "true" else "false"
  | VNil => "<nil>"
  end.

(** [json.Marshal] of one value. *)
Definition marshalValue (v : Scalar) : option string :=
  match v with
  | VString s => Some (Json.quote s)
  | VInt n => Some (pretty n)
  | VFloat f => MarshalFloat f
  | VBool b => Some (if b then "true" else "false")
  | VNil => Some "null"
  end.

Definition key_le (a b : string * Scalar) : Prop := String.le a.1 b.1.

#[export] Instance key_le_dec : RelDecision key_le :=
  λ a b, String.le_dec a.1 b.1.

Definition marshalEntry (kv : string * Scalar) : option string :=
  s ← marshalValue kv.2; Some (Json.quote kv.1 +:+ ":" +:+ s).

(** [json.Marshal] of a [map[string]interface{}] whose entries were
    visited in the order [l]: the entries are sorted by key, each is
    written as ["key":value], and they are joined inside braces. *)
Definition marshalEntries (l : list (string * Scalar)) : option string :=
  ss ← mapM marshalEntry (merge_sort key_le l);
  Some ("{" +:+ Strings.Join ss "," +:+ "}").

Definition Marshal (facets : gmap string Scalar) : option string :=
  marshalEntries (map_to_list facets).

(** [jsonData, _ := json.Marshal(facets); resultKey := string(jsonData)]:
    on an error [jsonData] is nil and the key is the empty string. *)
Definition resultKey (facets : gmap string Scalar) : string :=
  default "" (Marshal facets).

(** The [labels] that [registerMetric] builds from [facets]. *)
Definition labelsOf (facets : gmap string Scalar) : gmap string string :=
  (λ v, Strings.ToLower (Sprint v)) <$> facets.

(** [r.registerMetric(facets)]: the state after the call and the key
    returned.  A key that [r.Result] has is returned as it is; otherwise
    a new gauge, at the next free address, is stored under the key and
    registered.  The lines printed to the standard output are left out. *)
Definition registerMetric (st : State) (facets : gmap string Scalar) : State * string :=
  let labels := labelsOf facets in
  let key := resultKey facets in
  match Result st !! key with
  | Some _ => (st, key)
  | None =>
      let p := length (gauges st) in
      let g := mkGauge ("query_result_" +:+ Name (query st))
                       "Result of an SQL query" labels (S754_zero false) in
      (mkState (query st) (<[key := p]> (Result st)) (gauges st ++ [g])
               ({[p]} ∪ registry st), key)
  end.

(** The type switch of [setValueForResult]. *)
Definition coerce (v : Scalar) : Error + float64 :=
  match v with
  | VString t =>
      match ParseFloat t with
      | Some f => inr f
      | None => inl (InvalidNumericText t)
      end
  | VInt t => inr (float64_of_int t)
  | VFloat t => inr t
  | _ => inl (UnsupportedValueType v)
  end.

(** [setValueForResult(r, v)] on the gauge store; [r] is what
    [r.Result[key]] gave. *)
Definition setValueForResult (h : list Gauge) (r : option nat) (v : Scalar)
  : Error + list Gauge :=
  match coerce v with
  | inl e => inl e
  | inr f =>
      match r with
      | Some p =>
          match h !! p with
          | Some g => inr (<[p := set_value g f]> h)
          | None => inl NilGauge
          end
      | None => inl NilGauge
      end
  end.

(** The tail shared by the two strategies:
    [key := r.registerMetric(facet)], [setValueForResult(r.Result[key],
    dataVal)], [facetsWithResult[key] = true]. *)
Definition registerAndSet (st : State) (touched : gset string)
    (facet : gmap string Scalar) (dataVal : Scalar)
  : State * (Error + gset string) :=
  let '(st1, key) := registerMetric st facet in
  match setValueForResult (gauges st1) (Result st1 !! key) dataVal with
  | inl e => (st1, inl e)
  | inr h => (with_gauges st1 h, inr ({[key]} ∪ touched))
  end.

(** *** The multi-dimensional strategy *)

(** The inner loop over [r.Query.DataLabels] for the column [k], [v]:
    the facet map and [isLabel] after it. *)
Fixpoint labelLoop (k : string) (v : Scalar) (labels : list string)
    (facet : gmap string Scalar) (isLabel : bool) : gmap string Scalar * bool :=
  match labels with
  | [] => (facet, isLabel)
  | label :: labels' =>
      if decide (Strings.ToLower k = Strings.ToLower label)
      then labelLoop k v labels' (<[Strings.ToLower label := v]> facet) true
      else labelLoop k v labels' facet isLabel
  end.

(** The name that a metric-name column gives to the query:
    [r.Query.Name = ignoreNameCharRE.ReplaceAllString(v, "")] and then
    [r.Query.Name = strings.TrimSpace(invalidNameCharRE.ReplaceAllString(v, "_"))];
    the second assignment reads [v] again, so the first one has no
    effect on the name that stays. *)
Definition overrideName (v : string) : string :=
  let name1 := Strings.ReplaceAllString Strings.ignoreNameChar v "" in
  let name2 := Strings.TrimSpace
                 (Strings.ReplaceAllString Strings.invalidNameChar v "_") in
  name2.

(** What is carried from one column of a row to the next. *)
Record RowVars : Type := mkRowVars {
  facet : gmap string Scalar;
  dataVal : Scalar
}.

(** The part of the body of the column loop before [registerMetric].
    [ReplaceAllString] takes a string; the value of the column is passed
    in the form [fmt.Sprintf("%v", v)] gives it, which for a text is the
    text itself. *)
Definition multiColumnVars (st : State) (rv : RowVars) (k : string) (v : Scalar)
  : State * RowVars :=
  let q := query st in
  let '(facet1, isLabel) := labelLoop k v (DataLabels q) (facet rv) false in
  if isLabel then (st, mkRowVars facet1 (dataVal rv))
  else if decide (Strings.ToLower k = DataMetric q)
  then (with_query st (with_name q (overrideName (Sprint v))),
        mkRowVars facet1 (dataVal rv))
  else (st, mkRowVars (<[DataLabelName q := VString k]> facet1) v).

(** The column loop of one row: each column ends with a registration
    and a [Set], and an error leaves the loop and the function. *)
Fixpoint multiColumns (st : State) (touched : gset string) (rv : RowVars)
    (row : record) : State * (Error + gset string) :=
  match row with
  | [] => (st, inr touched)
  | (k, v) :: row' =>
      let '(st1, rv1) := multiColumnVars st rv k v in
      match registerAndSet st1 touched (facet rv1) (dataVal rv1) with
      | (st2, inl e) => (st2, inl e)
      | (st2, inr touched2) => multiColumns st2 touched2 rv1 row'
      end
  end.

(** One row.  [dataVal] has no declaration in this branch; it is taken
    as the other branch declares it, with [facet] at the head of the
    body of the row loop, so it starts as nil in every row. *)
Definition multiRow (st : State) (touched : gset string) (row : record)
  : State * (Error + gset string) :=
  if bool_decide (1 < length row)%nat && DataMetricUnset (query st)
  then (st, inl MissingDataMetricColumn)
  else multiColumns st touched (mkRowVars ∅ VNil) row.

(** *** The single-dimensional strategy *)

(** The column loop of one row: [facet], [dataVal] and [dataFound]
    after it.  [n] is [len(row)]. *)
Fixpoint singleColumns (dataField : string) (n : nat) (row : record)
    (facet : gmap string Scalar) (dataVal : Scalar) (dataFound : bool)
  : gmap string Scalar * Scalar * bool :=
  match row with
  | [] => (facet, dataVal, dataFound)
  | (k, v) :: row' =>
      if bool_decide (1 < n)%nat && negb (bool_decide (Strings.ToLower k = dataField))
      then singleColumns dataField n row' (<[Strings.ToLower k := v]> facet)
                         dataVal dataFound
      else singleColumns dataField n row' facet v true
  end.

Definition singleRow (st : State) (touched : gset string) (row : record)
  : State * (Error + gset string) :=
  let q := query st in
  if bool_decide (1 < length row)%nat && bool_decide (DataField q = "")
  then (st, inl MissingDataField)
  else
    let '(facet, dataVal, dataFound) :=
      singleColumns (DataField q) (length row) row ∅ VNil false in
    if negb dataFound then (st, inl DataFieldNotFound)
    else registerAndSet st touched facet dataVal.

(** *** [SetMetrics] *)

(** The loop over the rows, for either strategy. *)
Fixpoint rowLoop (body : State → gset string → record → State * (Error + gset string))
    (st : State) (touched : gset string) (recs : records)
  : State * (Error + gset string) :=
  match recs with
  | [] => (st, inr touched)
  | row :: recs' =>
      match body st touched row with
      | (st1, inl e) => (st1, inl e)
      | (st1, inr touched1) => rowLoop body st1 touched1 recs'
      end
  end.

(** The rows after the first check: the branch on
    [r.Query.MultiDimensional]. *)
Definition processRows (st : State) (touched : gset string) (recs : records)
  : State * (Error + gset string) :=
  if MultiDimensional (query st)
  then rowLoop multiRow st touched recs
  else rowLoop singleRow st touched recs.

(** [len(recs) > 1 && len(recs[0]) == 1]. *)
Definition singleColumnRows (recs : records) : bool :=
  match recs with
  | row0 :: _ :: _ => bool_decide (length row0 = 1%nat)
  | _ => false
  end.

(** [r.SetMetrics(recs)]: the state after the call, and the error or the
    set of keys of [facetsWithResult] (every key is mapped to [true]). *)
Definition SetMetrics (st : State) (recs : records) : State * (Error + gset string) :=
  if singleColumnRows recs then (st, inl AmbiguousSingleColumnResult)
  else processRows st ∅ recs.

(** *** [RemoveMissingMetrics] *)

(** The body of the loop for the entry [key], [m] of [r.Result]. *)
Definition reapEntry (facetsWithResult : gset string) (key : string) (m : nat)
    (st : State) : State :=
  if decide (key ∈ facetsWithResult) then st
  else mkState (query st) (delete key (Result st)) (gauges st)
               (registry st ∖ {[m]}).

(** [r.RemoveMissingMetrics(facetsWithResult)]: the loop over the entries
    [r.Result] has when it starts; an entry is deleted only when it is
    the one being visited. *)
Definition RemoveMissingMetrics (st : State) (facetsWithResult : gset string) : State :=
  map_fold (reapEntry facetsWithResult) st (Result st).

End Model.

(** ** A reading of the text of a [float64]

    The three library functions of [FloatText] for the decimal literals:
    [parse] reads a sign, digits, a fraction and an exponent and rounds
    to the nearest binary64 (an overflow is an error, as in Go; any other
    text is refused), [sprint] and [marshal] write the shortest digits
    that read back as the same number.  The properties below hold for
    every [FloatText]; this one runs the model on concrete rows. *)

Module Binary64Text.

(** The binary64 nearest to [num / den * 10^0], for [0 < num], [0 < den]. *)
Definition round_ratio (neg : bool) (num den : Z) : float64 :=
  let k := Z.max 0 (Z.log2 den + 66 - Z.log2 num) in
  let n := (num * 2 ^ k) / den in
  let sticky := if decide ((num * 2 ^ k) mod den = 0) then 0 else 1 in
  let mant := 2 * n + sticky in
  binary_normalize 53 1024 (if neg then - mant else mant) (- (k + 1)) neg.

(** The binary64 nearest to [d * 10^t], for [0 <= d]. *)
Definition round_decimal (neg : bool) (d t : Z) : float64 :=
  if decide (d = 0) then S754_zero neg
  else if decide (0 <= t) then round_ratio neg (d * 10 ^ t) 1
  else round_ratio neg d (10 ^ (- t)).

Definition digit_of (c : ascii) : option Z :=
  let n := Z.of_N (N_of_ascii c) in
  if decide (48 <= n <= 57) then Some (n - 48) else None.

(** Leading digits of [s]: their value after [acc], their number, the rest. *)
Fixpoint read_digits (s : string) (acc : Z) (count : Z) : Z * Z * string :=
  match s with
  | String c s' =>
      match digit_of c with
      | Some d => read_digits s' (10 * acc + d) (count + 1)
      | None => (acc, count, s)
      end
  | EmptyString => (acc, count, s)
  end.

Definition read_sign (s : string) : bool * string :=
  match s with
  | String "-" s' => (true, s')
  | String "+" s' => (false, s')
  | _ => (false, s)
  end.

Definition read_exponent (s : string) : option Z :=
  match s with
  | EmptyString => Some 0
  | String c s' =>
      if decide (c = "e"%char ∨ c = "E"%char) then
        let '(eneg, s1) := read_sign s' in
        match read_digits s1 0 0 with
        | (e, n, EmptyString) =>
            if decide (0 < n) then Some (if eneg then - e else e) else None
        | _ => None
        end
      else None
  end.

Definition parse (s : string) : option float64 :=
  let '(neg, s1) := read_sign s in
  let '(m1, n1, s2) := read_digits s1 0 0 in
  let '(m2, n2, s3) :=
    match s2 with
    | String "." s2' => read_digits s2' m1 0
    | _ => (m1, 0, s2)
    end in
  if decide (n1 + n2 = 0) then None
  else
    match read_exponent s3 with
    | Some e =>
        match round_decimal neg m2 (e - n2) with
        | S754_infinity _ => None
        | f => Some f
        end
    | None => None
    end.


(** Whether [f] is the finite positive [m * 2^e]. *)
Definition is_finite (f : float64) (m : positive) (e : Z) : bool :=
  match f with
  | S754_finite false m' e' => bool_decide (m' = m) && bool_decide (e' = e)
  | _ => false
  end.

(** [num / den] cut at the decimal position [t]: the integer part of
    [num / den / 10^t], and whether what is cut off is more than half. *)
Definition cut_at (num den t : Z) : Z * bool :=
  let n := if decide (0 <= t) then num else num * 10 ^ (- t) in
  let m := if decide (0 <= t) then den * 10 ^ t else den in
  (n / m, bool_decide (m < 2 * (n mod m))).

(** The least [dp] from [dp0] on with [num / den < 10^dp]. *)
Fixpoint decimal_point (fuel : nat) (num den dp0 : Z) : Z :=
  match fuel with
  | O => dp0
  | S fuel' =>
      if decide (fst (cut_at num den dp0) = 0) then dp0
      else decimal_point fuel' num den (dp0 + 1)
  end.

(** The shortest decimal [d * 10^t] that [round_decimal] takes to the
    positive finite [m * 2^e = num / den], the nearer one when two of a length
    do; [nd] is the number of digits tried, from one up. *)
Fixpoint shortest_from (fuel : nat) (m : positive) (e : Z) (num den dp nd : Z)
  : Z * Z :=
  let t := dp - nd in
  let '(lo, up) := cut_at num den t in
  let ok d := is_finite (round_decimal false d t) m e in
  match fuel with
  | O => (lo, t)
  | S fuel' =>
      if ok lo && ok (lo + 1) then (if up then lo + 1 else lo, t)
      else if ok lo then (lo, t)
      else if ok (lo + 1) then (lo + 1, t)
      else shortest_from fuel' m e num den dp (nd + 1)
  end.

Fixpoint strip_zeros (fuel : nat) (d t : Z) : Z * Z :=
  match fuel with
  | O => (d, t)
  | S fuel' =>
      if decide (d mod 10 = 0 ∧ d ≠ 0) then strip_zeros fuel' (d / 10) (t + 1)
      else (d, t)
  end.

(** The digits of the positive finite [m * 2^e] and the position [dp] of
    its decimal point: the value is [0.digits * 10^dp]. *)
Definition shortest (m : positive) (e : Z) : string * Z :=
  let num := Z.pos m * 2 ^ Z.max e 0 in
  let den := 2 ^ Z.max (- e) 0 in
  let est := (Z.log2 (Z.pos m) + e) * 30103 / 100000 in
  let dp := decimal_point 4 num den est in
  let '(d, t) := shortest_from 17 m e num den dp 1 in
  let '(d', t') := strip_zeros 20 d t in
  let ds := pretty d' in
  (ds, Z.of_nat (String.length ds) + t').

Definition zeros (n : Z) : string :=
  string_of_list_ascii (replicate (Z.to_nat n) "0"%char).

(** The layout [%e] of [strconv] for the digits [ds] with the decimal
    point at [dp]; [width] is the least number of exponent digits. *)
Definition layout_e (ds : string) (dp : Z) (width : nat) : string :=
  let exp := dp - 1 in
  let es := pretty (Z.abs exp) in
  let mant :=
    match ds with
    | String c EmptyString => String c EmptyString
    | String c rest => String c ("." +:+ rest)
    | EmptyString => "0"
    end in
  mant +:+ "e" +:+ (if decide (exp < 0) then "-" else "+")
       +:+ zeros (Z.of_nat width - Z.of_nat (String.length es)) +:+ es.

(** The layout [%f] of [strconv] with as many decimals as there are
    digits. *)
Definition layout_f (ds : string) (dp : Z) : string :=
  let nd := Z.of_nat (String.length ds) in
  if decide (dp <= 0) then "0." +:+ zeros (- dp) +:+ ds
  else if decide (nd <= dp) then ds +:+ zeros (dp - nd)
  else substring 0 (Z.to_nat dp) ds +:+ "." +:+
       substring (Z.to_nat dp) (Z.to_nat (nd - dp)) ds.

(** [%v] of [fmt] on a [float64]: the verb [g] with the shortest digits
    that read back as the same number. *)
Definition sprint (f : float64) : string :=
  match f with
  | S754_zero neg => if neg then "-0" else "0"
  | S754_infinity neg => if neg then "-Inf" else "+Inf"
  | S754_nan => "NaN"
  | S754_finite neg m e =>
      let '(ds, dp) := shortest m e in
      (if neg then "-" else "") +:+
      (if decide (dp - 1 < -4 ∨ 6 <= dp - 1) then layout_e ds dp 2
       else layout_f ds dp)
  end.

(** [json.Marshal] on a [float64]: fixed notation from [1e-6] up to
    [1e21], the exponent form with a short exponent outside. *)
Definition marshal (f : float64) : option string :=
  match f with
  | S754_zero neg => Some (if neg then "-0" else "0")
  | S754_infinity _ | S754_nan => None
  | S754_finite neg m e =>
      let '(ds, dp) := shortest m e in
      Some ((if neg then "-" else "") +:+
            (if decide (dp - 1 < -6 ∨ 21 <= dp - 1) then layout_e ds dp 1
             else layout_f ds dp))
  end.
End Binary64Text.

#[export] Instance binary64_text : FloatText := {|
  ParseFloat := Binary64Text.parse;
  SprintFloat := Binary64Text.sprint;
  MarshalFloat := Binary64Text.marshal
|}.

(** ** What the specification says of the name sanitizer

    The words of the specification for the metric-name column: strip the
    characters outside [[A-Za-z0-9_]], replace the invalid characters
    that remain by an underscore, trim the white space.  It is compared
    with [overrideName] below. *)
Definition sanitize_as_specified (v : string) : string :=
  Strings.TrimSpace
    (Strings.ReplaceAllString Strings.invalidNameChar
       (Strings.ReplaceAllString Strings.invalidNameChar v "") "_").

(** The two passes in the order of [set.go], the second on the result of
    the first. *)
Definition sanitize_two_passes (v : string) : string :=
  Strings.TrimSpace
    (Strings.ReplaceAllString Strings.invalidNameChar
       (Strings.ReplaceAllString Strings.ignoreNameChar v "") "_").

(** ** Invariants of the state *)

(** Every gauge that [r.Result] holds exists and is registered, and no
    gauge is held under two keys. *)
Definition well_formed (st : State) : Prop :=
  (∀ key p, Result st !! key = Some p →
     (p < length (gauges st))%nat ∧ p ∈ registry st) ∧
  (∀ k1 k2 p, Result st !! k1 = Some p → Result st !! k2 = Some p → k1 = k2).

(** The same gauge up to its value. *)
Definition same_gauge (g g' : Gauge) : Prop :=
  gName g = gName g' ∧ gHelp g = gHelp g' ∧ gConstLabels g = gConstLabels g'.

(** Nothing was removed between [st] and [st']: every key keeps its
    gauge, every registered gauge stays registered, every gauge object
    is still there with its name and labels. *)
Definition grows (st st' : State) : Prop :=
  Result st ⊆ Result st' ∧ registry st ⊆ registry st' ∧
  ∀ p g, gauges st !! p = Some g →
    ∃ g', gauges st' !! p = Some g' ∧ same_gauge g g'.

(** The same configuration up to the name of the query. *)
Definition same_config (q q' : Query) : Prop := with_name q (Name q') = q'.

(** The same Go rows, with the columns of a row possibly visited in
    another order. *)
Definition same_batch (recs recs' : records) : Prop := Forall2 Permutation recs recs'.

Section Reachable.
Context `{FloatText}.

(** The states of a [QueryResult] that is made by [NewQueryResult] and
    then only used through [SetMetrics] and [RemoveMissingMetrics]. *)
Inductive reachable : State → Prop :=
  | reachable_new q h reg : reachable (NewQueryResult q h reg)
  | reachable_set st recs : reachable st → reachable (SetMetrics st recs).1
  | reachable_reap st touched :
      reachable st → reachable (RemoveMissingMetrics st touched).

End Reachable.

(** What every step of [SetMetrics] keeps: nothing is removed, the
    configuration stays, and a well-formed state stays well formed. *)
Definition step_ok (st st' : State) : Prop :=
  grows st st' ∧ same_config (query st) (query st') ∧
  (well_formed st → well_formed st').

(** The same series: the same keys with the same gauges, the same
    registry, no gauge object more. *)
Definition same_series (st st' : State) : Prop :=
  Result st = Result st' ∧ registry st = registry st' ∧
  length (gauges st) = length (gauges st').

(** How the queries of two runs of the same rows are related when the
    first run went from [qa] to [qa'] and the second from [qb] to [qb']:
    a name taken from the rows is the same in both, and without one
    neither query has changed. *)
Definition query_after (qa qa' qb qb' : Query) : Prop :=
  qb' = qa' ∨ (qa' = qa ∧ qb' = qb).

(** What a row body has to do for the loop over the rows to go through
    again. *)
Definition body_again
    (body : State → gset string → record → State * (Error + gset string)) : Prop :=
  ∀ sa T row sa' T' sb,
    body sa T row = (sa', inr T') →
    same_config (query sa) (query sb) →
    Result sa' ⊆ Result sb →
    (length (gauges sa') ≤ length (gauges sb))%nat →
    ∃ sb', body sb T row = (sb', inr T') ∧ same_series sb sb' ∧
           query_after (query sa) (query sa') (query sb) (query sb').

(** ** The examples of the specification *)

(** The multi-dimensional query of the example, with either reading of
    the metric-column condition, and its row with the columns in the
    order in which the specification writes them. *)
Definition region_query (unset : bool) : Query :=
  mkQuery "example" true "" ["region"] "metric" "" unset.

Definition region_row : record :=
  [("region", VString "eu"); ("cpu", VInt 10); ("mem", VInt 20)].

(** A single-dimensional query with the data in the column [value]. *)
Definition host_query : Query := mkQuery "example" false "value" [] "" "" false.

(** Two rows that differ in the case of a label value, two that differ
    in the case of a label name. *)
Definition host_rows_value_case : records :=
  [[("host", VString "A"); ("value", VInt 1)];
   [("host", VString "a"); ("value", VInt 2)]].

Definition host_rows_name_case : records :=
  [[("Host", VString "a"); ("value", VInt 1)];
   [("host", VString "a"); ("value", VInt 2)]].

(** A batch whose second row has a value that is no number. *)
Definition host_rows_bad : records :=
  [[("host", VString "a"); ("value", VInt 1)];
   [("host", VString "b"); ("value", VBool true)]].

(** A multi-dimensional query whose metric-name column is [name]. *)
Definition named_query : Query :=
  mkQuery "example" true "" ["region"] "metric" "name" false.

(** One Go row with two columns whose names differ only in case, in the
    two orders in which [range] can visit them. *)
Definition host_row_collision_1 : records :=
  [[("Host", VString "a"); ("host", VString "b"); ("value", VInt 1)]].

Definition host_row_collision_2 : records :=
  [[("host", VString "b"); ("Host", VString "a"); ("value", VInt 1)]].

(** What a call has returned: the touched keys, none after an error. *)
Definition touched_keys (res : Error + gset string) : gset string :=
  match res with
  | inr touched => touched
  | inl _ => ∅
  end.

Section Examples.
Context `{FloatText}.

(** The example row, visited in the order [row], in a new process. *)
Definition region_run (unset : bool) (row : record) : State * (Error + gset string) :=
  SetMetrics (NewQueryResult (region_query unset) [] ∅) [row].

Definition host_run (recs : records) : State * (Error + gset string) :=
  SetMetrics (NewQueryResult host_query [] ∅) recs.

(** The name and the labels under which each gauge was registered. *)
Definition exposed (st : State) : list (string * gmap string string) :=
  (λ g, (gName g, gConstLabels g)) <$> gauges st.

End Examples.

(** ** Further invariants and conditions *)

Section Labelled.
Context `{FloatText}.

(** Every key of [r.Result] is the key of some facets, and its gauge
    carries the labels made from these facets and the help text of
    [registerMetric]. *)
Definition labelled (st : State) : Prop :=
  ∀ key p, Result st !! key = Some p →
    ∃ g fc, gauges st !! p = Some g ∧ resultKey fc = key ∧
            gConstLabels g = labelsOf fc ∧ gHelp g = "Result of an SQL query".

End Labelled.

(** The names of the columns of a row stay distinct when lower-cased. *)
Definition lower_distinct (row : record) : Prop :=
  NoDup (Strings.ToLower <$> row.*1).

(** Queries whose metric-name column, or data column, is configured
    with an upper-case letter. *)
Definition mixed_metric_query : Query :=
  mkQuery "example" true "" ["region"] "metric" "Name" false.

Definition mixed_field_query : Query :=
  mkQuery "example" false "Value" [] "" "" false.

(** * Properties *)

(** A closed decidable statement is settled by evaluating its decision. *)
Ltac by_compute := apply (bool_decide_unpack _); vm_compute; exact I.


(** ** Strings *)

Lemma lower_byte_idemp c : Strings.lower_byte (Strings.lower_byte c) = Strings.lower_byte c.
Proof. by destruct c as [[] [] [] [] [] [] [] []]. Qed.

Lemma ToLower_idemp s : Strings.ToLower (Strings.ToLower s) = Strings.ToLower s.
Proof.
  induction s as [|c s IH]; simpl; [done|].
  by rewrite lower_byte_idemp, IH.
Qed.

Lemma ReplaceAllString_none class s repl :
  Forall (λ c, class c = false) (list_ascii_of_string s) →
  Strings.ReplaceAllString class s repl = s.
Proof.
  induction s as [|c s IH]; simpl; [done|].
  intros Hs. apply Forall_cons in Hs as [-> Hs]. by rewrite IH.
Qed.

Section Properties.
Context `{FloatText}.

(** ** The facet key *)

#[local] Instance key_le_trans : Transitive key_le.
Proof. intros a b c. unfold key_le. apply transitivity. Qed.

#[local] Instance key_le_total : Total key_le.
Proof. intros a b. unfold key_le. apply (total String.le). Qed.

(** Two entries with the same key in a list without repeated keys are
    the same entry. *)
Lemma NoDup_fst_eq (l : list (string * Scalar)) a b :
  NoDup l.*1 → a ∈ l → b ∈ l → a.1 = b.1 → a = b.
Proof.
  intros Hnd Ha Hb Hk. induction l as [|c l IH]; [by apply elem_of_nil in Ha|].
  rewrite fmap_cons in Hnd. apply NoDup_cons in Hnd as [Hc Hnd].
  apply elem_of_cons in Ha as [->|Ha]; apply elem_of_cons in Hb as [->|Hb];
    [done| | |by apply IH].
  - destruct Hc. rewrite Hk. by apply list_elem_of_fmap_2.
  - destruct Hc. rewrite <-Hk. by apply list_elem_of_fmap_2.
Qed.

(** Sorting by key forgets the order in which the entries came. *)
Lemma merge_sort_key_le_perm (l1 l2 : list (string * Scalar)) :
  NoDup l1.*1 → l1 ≡ₚ l2 → merge_sort key_le l1 = merge_sort key_le l2.
Proof.
  intros Hnd Hp.
  apply (StronglySorted_unique_strong key_le).
  - intros a b Ha Hb Hab Hba.
    apply (NoDup_fst_eq l1); [done| | |].
    + by rewrite <-(merge_sort_Permutation key_le l1).
    + rewrite Hp. by rewrite <-(merge_sort_Permutation key_le l2).
    + unfold key_le in *. by apply (anti_symm String.le).
  - apply StronglySorted_merge_sort; apply _.
  - apply StronglySorted_merge_sort; apply _.
  - by rewrite !merge_sort_Permutation.
Qed.

Lemma marshalEntries_perm (l1 l2 : list (string * Scalar)) :
  NoDup l1.*1 → l1 ≡ₚ l2 → marshalEntries l1 = marshalEntries l2.
Proof.
  intros Hnd Hp. unfold marshalEntries.
  by rewrite (merge_sort_key_le_perm l1 l2).
Qed.

(** C3.  Two facet mappings with the same (key, value) pairs have the
    same facet key, in whatever order the pairs were inserted ([A] and
    [B] are the two insertion orders) and in whatever order the encoder
    visits them. *)
Theorem facet_key_order_independent (A B : list (string * Scalar)) :
  NoDup A.*1 → A ≡ₚ B →
  resultKey (list_to_map A) = resultKey (list_to_map B) ∧
  marshalEntries A = marshalEntries B ∧
  Marshal (list_to_map A) = marshalEntries A.
Proof.
  intros Hnd Hp. split; [|split].
  - by rewrite (list_to_map_proper A B Hnd Hp).
  - by apply marshalEntries_perm.
  - unfold Marshal. apply marshalEntries_perm.
    + apply NoDup_fst_map_to_list.
    + by apply map_to_list_to_map.
Qed.

(** ** Nothing is removed by [SetMetrics] *)

#[local] Instance grows_refl : Reflexive grows.
Proof.
  intros st. split; [done|]. split; [done|].
  intros p g Hg. by exists g.
Qed.

#[local] Instance grows_trans : Transitive grows.
Proof.
  intros s1 s2 s3 (HR1 & Hr1 & Hg1) (HR2 & Hr2 & Hg2).
  split; [by trans (Result s2)|]. split; [by trans (registry s2)|].
  intros p g Hg. destruct (Hg1 p g Hg) as (g' & Hg' & S1 & S2 & S3).
  destruct (Hg2 p g' Hg') as (g'' & Hg'' & T1 & T2 & T3).
  exists g''. split; [done|]. unfold same_gauge. by rewrite S1, S2, S3.
Qed.

Lemma registerMetric_key st facets : (registerMetric st facets).2 = resultKey facets.
Proof. unfold registerMetric. by destruct (Result st !! resultKey facets). Qed.

Lemma registerMetric_query st facets :
  query (registerMetric st facets).1 = query st.
Proof. unfold registerMetric. by destruct (Result st !! resultKey facets). Qed.

(** [registerMetric] is idempotent per key: a key that is there is
    returned and nothing else happens. *)
Lemma registerMetric_known st facets p :
  Result st !! resultKey facets = Some p →
  registerMetric st facets = (st, resultKey facets).
Proof. intros Hp. unfold registerMetric. by rewrite Hp. Qed.

Lemma registerMetric_is_Some st facets :
  is_Some (Result (registerMetric st facets).1 !! resultKey facets).
Proof.
  unfold registerMetric. destruct (Result st !! resultKey facets) eqn:E; simpl.
  - by rewrite E.
  - rewrite lookup_insert_eq. by eexists.
Qed.

Lemma registerMetric_grows st facets : grows st (registerMetric st facets).1.
Proof.
  unfold registerMetric. destruct (Result st !! resultKey facets) eqn:E; simpl.
  { reflexivity. }
  split; simpl; [by apply insert_subseteq|]. split; [set_solver|].
  intros p g Hg. exists g. split; [|done]. by apply lookup_app_l_Some.
Qed.

Lemma registerMetric_well_formed st facets :
  well_formed st → well_formed (registerMetric st facets).1.
Proof.
  intros [Hreg Hinj]. unfold registerMetric.
  destruct (Result st !! resultKey facets) eqn:E; simpl; [done|].
  split; simpl.
  - intros key p. rewrite lookup_insert. case_decide as Hk.
    + intros [= <-]. rewrite length_app; simpl.
      split; [lia|by apply elem_of_union_l, elem_of_singleton].
    + intros Hp. destruct (Hreg key p Hp) as [Hlt Hin].
      rewrite length_app; simpl. split; [lia|by apply elem_of_union_r].
  - intros k1 k2 p. rewrite !lookup_insert.
    repeat case_decide; subst; try done.
    + intros [= <-] Hp. destruct (Hreg _ _ Hp) as [Hlt _]. lia.
    + intros Hp [= <-]. destruct (Hreg _ _ Hp) as [Hlt _]. lia.
    + apply Hinj.
Qed.

Lemma with_gauges_grows st h :
  (∀ p g, gauges st !! p = Some g → ∃ g', h !! p = Some g' ∧ same_gauge g g') →
  grows st (with_gauges st h).
Proof. intros Hh. by split; [|split]. Qed.

Lemma setValueForResult_gauges h r v h' :
  setValueForResult h r v = inr h' →
  length h' = length h ∧
  ∀ p g, h !! p = Some g → ∃ g', h' !! p = Some g' ∧ same_gauge g g'.
Proof.
  unfold setValueForResult. destruct (coerce v) as [e|f]; [done|].
  destruct r as [p0|]; [|done]. destruct (h !! p0) as [g0|] eqn:E; [|done].
  intros [= <-]. split; [by rewrite length_insert|].
  intros p g Hg. destruct (decide (p = p0)) as [->|Hne].
  - exists (set_value g0 f). rewrite list_lookup_insert_eq by by eapply lookup_lt_Some.
    split; [done|]. rewrite E in Hg. by injection Hg as <-.
  - exists g. by rewrite list_lookup_insert_ne.
Qed.

Lemma registerAndSet_query st touched fc v :
  query (registerAndSet st touched fc v).1 = query st.
Proof.
  unfold registerAndSet. pose proof (registerMetric_query st fc) as Hq.
  destruct (registerMetric st fc) as [st1 key]; simpl in *.
  by destruct (setValueForResult _ _ _).
Qed.

Lemma registerAndSet_grows st touched fc v :
  grows st (registerAndSet st touched fc v).1.
Proof.
  unfold registerAndSet. pose proof (registerMetric_grows st fc) as Hg.
  destruct (registerMetric st fc) as [st1 key]; simpl in *.
  destruct (setValueForResult _ _ _) as [e|h] eqn:E; simpl; [done|].
  etrans; [exact Hg|]. apply with_gauges_grows.
  by apply setValueForResult_gauges in E as [_ ?].
Qed.

Lemma registerAndSet_well_formed st touched fc v :
  well_formed st → well_formed (registerAndSet st touched fc v).1.
Proof.
  intros Hwf. unfold registerAndSet.
  pose proof (registerMetric_well_formed st fc Hwf) as Hwf1.
  destruct (registerMetric st fc) as [st1 key]; simpl in *.
  destruct (setValueForResult _ _ _) as [e|h] eqn:E; simpl; [done|].
  apply setValueForResult_gauges in E as [Hlen _].
  destruct Hwf1 as [Hreg Hinj]. split; simpl; [|done].
  intros k p Hp. rewrite Hlen. exact (Hreg k p Hp).
Qed.

(** The key that a registration returns is in [r.Result], so the [Set]
    that follows never meets a nil gauge. *)
Lemma registerAndSet_not_nil st touched fc v :
  well_formed st → (registerAndSet st touched fc v).2 ≠ inl NilGauge.
Proof.
  intros Hwf. unfold registerAndSet.
  pose proof (registerMetric_well_formed st fc Hwf) as [Hreg _].
  pose proof (registerMetric_is_Some st fc) as [p Hp].
  pose proof (registerMetric_key st fc) as Hk.
  destruct (registerMetric st fc) as [st1 key]; simpl in *. subst key.
  rewrite Hp. unfold setValueForResult.
  destruct v as [t|n|f|b|]; simpl; try done.
  - destruct (ParseFloat t); [|done].
    destruct (Hreg _ _ Hp) as [Hlt _]. apply lookup_lt_is_Some in Hlt as [g ->]. done.
  - destruct (Hreg _ _ Hp) as [Hlt _]. apply lookup_lt_is_Some in Hlt as [g ->]. done.
  - destruct (Hreg _ _ Hp) as [Hlt _]. apply lookup_lt_is_Some in Hlt as [g ->]. done.
Qed.

#[local] Instance same_config_refl : Reflexive same_config.
Proof. by intros []. Qed.

#[local] Instance same_config_trans : Transitive same_config.
Proof. intros [] [] []; unfold same_config, with_name; simpl. congruence. Qed.

#[local] Instance step_ok_refl : Reflexive step_ok.
Proof. intros st. by split; [|split]. Qed.

#[local] Instance step_ok_trans : Transitive step_ok.
Proof.
  intros s1 s2 s3 (G1 & C1 & W1) (G2 & C2 & W2).
  split; [by trans s2|]. split; [by trans (query s2)|]. auto.
Qed.

Lemma registerAndSet_step_ok st touched fc v :
  step_ok st (registerAndSet st touched fc v).1.
Proof.
  split; [apply registerAndSet_grows|]. split.
  - by rewrite registerAndSet_query.
  - apply registerAndSet_well_formed.
Qed.

Lemma multiColumnVars_step_ok st rv k v : step_ok st (multiColumnVars st rv k v).1.
Proof.
  unfold multiColumnVars.
  destruct (labelLoop k v (DataLabels (query st)) (facet rv) false) as [f1 []];
    simpl; [reflexivity|].
  case_decide; simpl; [|reflexivity].
  split; [|split]; [by split; [|split]; [..|intros p g ?; exists g]| |done].
  by destruct (query st).
Qed.

Lemma multiColumns_step_ok row : ∀ st touched rv,
  step_ok st (multiColumns st touched rv row).1.
Proof.
  induction row as [|[k v] row IH]; intros st touched rv; simpl; [reflexivity|].
  pose proof (multiColumnVars_step_ok st rv k v) as H1.
  destruct (multiColumnVars st rv k v) as [st1 rv1]; simpl in *.
  pose proof (registerAndSet_step_ok st1 touched (facet rv1) (dataVal rv1)) as H2.
  destruct (registerAndSet st1 touched (facet rv1) (dataVal rv1)) as [st2 [e|t2]];
    simpl in *.
  - by trans st1.
  - trans st1; [done|]. trans st2; [done|]. apply IH.
Qed.

Lemma multiRow_step_ok st touched row : step_ok st (multiRow st touched row).1.
Proof.
  unfold multiRow. destruct (_ && _); simpl; [reflexivity|].
  apply multiColumns_step_ok.
Qed.

Lemma singleRow_step_ok st touched row : step_ok st (singleRow st touched row).1.
Proof.
  unfold singleRow. destruct (_ && _); simpl; [reflexivity|].
  destruct (singleColumns _ _ _ _ _ _) as [[fc dv] []]; simpl;
    [apply registerAndSet_step_ok|reflexivity].
Qed.

Lemma rowLoop_step_ok body recs :
  (∀ st touched row, step_ok st (body st touched row).1) →
  ∀ st touched, step_ok st (rowLoop body st touched recs).1.
Proof.
  intros Hbody. induction recs as [|row recs IH]; intros st touched; simpl;
    [reflexivity|].
  pose proof (Hbody st touched row) as H1.
  destruct (body st touched row) as [st1 [e|t1]]; simpl in *; [done|].
  trans st1; [done|apply IH].
Qed.

Lemma processRows_step_ok st touched recs :
  step_ok st (processRows st touched recs).1.
Proof.
  unfold processRows. destruct (MultiDimensional (query st)).
  - apply rowLoop_step_ok, multiRow_step_ok.
  - apply rowLoop_step_ok, singleRow_step_ok.
Qed.

Lemma SetMetrics_step_ok st recs : step_ok st (SetMetrics st recs).1.
Proof.
  unfold SetMetrics. destruct (singleColumnRows recs); simpl; [reflexivity|].
  apply processRows_step_ok.
Qed.

(** The rows after a prefix that went through are processed from the
    state and the touched set that the prefix left. *)
Lemma rowLoop_app body (pre post : records) st touched st1 touched1 :
  rowLoop body st touched pre = (st1, inr touched1) →
  rowLoop body st touched (pre ++ post)%list = rowLoop body st1 touched1 post.
Proof.
  revert st touched. induction pre as [|row pre IH]; intros st touched; simpl.
  { by intros [= -> ->]. }
  destruct (body st touched row) as [st2 [e|t2]]; [done|]. apply IH.
Qed.

Lemma processRows_app (pre post : records) st touched st1 touched1 :
  processRows st touched pre = (st1, inr touched1) →
  processRows st touched (pre ++ post)%list = processRows st1 touched1 post.
Proof.
  intros Hpre. pose proof (processRows_step_ok st touched pre) as (_ & Hc & _).
  rewrite Hpre in Hc; simpl in Hc.
  assert (MultiDimensional (query st1) = MultiDimensional (query st)) as Hm.
  { rewrite <-Hc. by destruct (query st). }
  unfold processRows in *. rewrite Hm.
  destruct (MultiDimensional (query st)); by apply rowLoop_app.
Qed.

(** C9.  When [SetMetrics] returns an error, nothing was removed: every
    key that [r.Result] held before the call still maps to its gauge,
    every registered gauge is still registered, and so is everything
    that the rows before the failing one registered ([st1] is the state
    after any prefix of the batch that went through). *)
Theorem error_removes_nothing st recs st' e :
  SetMetrics st recs = (st', inl e) →
  grows st st' ∧
  ∀ (pre post : records) st1 touched1,
    recs = (pre ++ post)%list → singleColumnRows recs = false →
    processRows st ∅ pre = (st1, inr touched1) →
    grows st st1 ∧ grows st1 st'.
Proof.
  intros Hset. split.
  { pose proof (SetMetrics_step_ok st recs) as [Hg _]. by rewrite Hset in Hg. }
  intros pre post st1 touched1 -> Hcheck Hpre.
  unfold SetMetrics in Hset. rewrite Hcheck in Hset.
  rewrite (processRows_app _ _ _ _ _ _ Hpre) in Hset. split.
  - pose proof (processRows_step_ok st ∅ pre) as [Hg _]. by rewrite Hpre in Hg.
  - pose proof (processRows_step_ok st1 touched1 post) as [Hg _].
    by rewrite Hset in Hg.
Qed.

(** ** The checks on the shape of the rows *)

(** C5.  A batch of more than one row whose first row has exactly one
    column is refused with [AmbiguousSingleColumnResult] before any row
    is looked at: the state is the one before the call, whatever the
    strategy of the query. *)
Theorem single_column_rows_rejected st (row0 row1 : record) (recs : records) :
  length row0 = 1%nat →
  SetMetrics st (row0 :: row1 :: recs) = (st, inl AmbiguousSingleColumnResult).
Proof.
  intros Hlen. unfold SetMetrics, singleColumnRows.
  by rewrite bool_decide_eq_true_2.
Qed.






(** ** Reaping *)

(** What the loop of [RemoveMissingMetrics] has done once it has visited
    the entries [m] of [r.Result]. *)
Lemma reap_fold st (T : gset string) (m : gmap string nat) :
  let r := map_fold (reapEntry T) st m in
  query r = query st ∧ gauges r = gauges st ∧
  (∀ k, Result r !! k =
        match m !! k with
        | Some _ => if decide (k ∈ T) then Result st !! k else None
        | None => Result st !! k
        end) ∧
  (∀ p, p ∈ registry r ↔
        p ∈ registry st ∧ ∀ k, m !! k = Some p → k ∈ T).
Proof.
  apply (map_fold_weak_ind
    (λ r m, query r = query st ∧ gauges r = gauges st ∧
      (∀ k, Result r !! k =
            match m !! k with
            | Some _ => if decide (k ∈ T) then Result st !! k else None
            | None => Result st !! k
            end) ∧
      (∀ p, p ∈ registry r ↔
            p ∈ registry st ∧ ∀ k, m !! k = Some p → k ∈ T))).
  { split; [done|]. split; [done|]. split.
    - intros k. by rewrite lookup_empty.
    - intros p. split; [|by intros [? _]]. intros Hp. split; [done|].
      intros k. by rewrite lookup_empty. }
  clear m. intros i x m r Hi (Hq & Hg & HR & Hreg). unfold reapEntry.
  destruct (decide (i ∈ T)) as [HiT|HiT]; simpl.
  - split; [done|]. split; [done|]. split.
    + intros k. rewrite lookup_insert. case_decide as Hk.
      * subst k. rewrite HR, Hi. by rewrite decide_True.
      * apply HR.
    + intros p. rewrite Hreg. apply and_iff_compat_l. split.
      * intros Hm k. rewrite lookup_insert. case_decide; [by subst|]. apply Hm.
      * intros Hm k Hk. apply Hm. rewrite lookup_insert_ne; [done|].
        intros <-. by rewrite Hi in Hk.
  - split; [done|]. split; [done|]. split.
    + intros k. rewrite (lookup_insert m). case_decide as Hk.
      * subst k. rewrite lookup_delete_eq. by rewrite decide_False.
      * rewrite lookup_delete_ne by done. apply HR.
    + intros p. rewrite elem_of_difference, elem_of_singleton, Hreg. split.
      * intros [[Hp Hm] Hne]. split; [done|].
        intros k. rewrite lookup_insert. case_decide; [by intros [= ->]|]. apply Hm.
      * intros [Hp Hm]. split; [split; [done|]|].
        -- intros k Hk. apply Hm. rewrite lookup_insert_ne; [done|].
           intros <-. by rewrite Hi in Hk.
        -- intros ->. apply HiT, Hm. by rewrite lookup_insert_eq.
Qed.

Lemma RemoveMissingMetrics_Result st T k :
  Result (RemoveMissingMetrics st T) !! k =
  if decide (k ∈ T) then Result st !! k else None.
Proof.
  destruct (reap_fold st T (Result st)) as (_ & _ & HR & _).
  unfold RemoveMissingMetrics. rewrite HR.
  destruct (Result st !! k) eqn:E; [done|]. by case_decide.
Qed.

Lemma RemoveMissingMetrics_well_formed st T :
  well_formed st → well_formed (RemoveMissingMetrics st T).
Proof.
  intros [Hreg Hinj].
  destruct (reap_fold st T (Result st)) as (_ & Hg & _ & Hr).
  fold (RemoveMissingMetrics st T) in Hg, Hr. split.
  - intros key p. rewrite RemoveMissingMetrics_Result, Hg, Hr.
    case_decide as HT; [|done]. intros Hp.
    destruct (Hreg key p Hp) as [Hlt Hin]. split; [done|]. split; [done|].
    intros k Hk. by rewrite (Hinj k key p Hk Hp).
  - intros k1 k2 p. rewrite !RemoveMissingMetrics_Result.
    repeat case_decide; try done. apply Hinj.
Qed.

Lemma reachable_well_formed st : reachable st → well_formed st.
Proof.
  induction 1 as [q h reg|st recs _ IH|st T _ IH].
  - split; intros *; unfold NewQueryResult; simpl; by rewrite lookup_empty.
  - by apply SetMetrics_step_ok.
  - by apply RemoveMissingMetrics_well_formed.
Qed.

(** The keys that [SetMetrics] returns are keys of [r.Result]. *)
Lemma registerAndSet_touched st T fc v st' T' :
  registerAndSet st T fc v = (st', inr T') →
  T ⊆ dom (Result st) → T' ⊆ dom (Result st').
Proof.
  unfold registerAndSet.
  pose proof (registerMetric_grows st fc) as (Hsub & _).
  pose proof (registerMetric_is_Some st fc) as Hsome.
  pose proof (registerMetric_key st fc) as Hkey.
  destruct (registerMetric st fc) as [st1 key]; simpl in *. subst key.
  destruct (setValueForResult _ _ _) as [e|h]; [done|].
  intros [= <- <-] HT; simpl. apply subseteq_dom in Hsub.
  apply union_subseteq. split; [|set_solver].
  apply singleton_subseteq_l. by apply elem_of_dom.
Qed.

Lemma multiColumns_touched row : ∀ st T rv st' T',
  multiColumns st T rv row = (st', inr T') →
  T ⊆ dom (Result st) → T' ⊆ dom (Result st').
Proof.
  induction row as [|[k v] row IH]; intros st T rv st' T'; simpl.
  { by intros [= <- <-]. }
  pose proof (multiColumnVars_step_ok st rv k v) as ((Hsub & _) & _).
  destruct (multiColumnVars st rv k v) as [st1 rv1]; simpl in *.
  destruct (registerAndSet st1 T (facet rv1) (dataVal rv1)) as [st2 [e|T2]] eqn:E;
    [done|].
  intros Hrest HT. eapply IH; [exact Hrest|].
  eapply registerAndSet_touched; [exact E|].
  apply subseteq_dom in Hsub. set_solver.
Qed.

Lemma rowLoop_touched body recs :
  (∀ st T row st' T', body st T row = (st', inr T') →
     T ⊆ dom (Result st) → T' ⊆ dom (Result st')) →
  ∀ st T st' T', rowLoop body st T recs = (st', inr T') →
    T ⊆ dom (Result st) → T' ⊆ dom (Result st').
Proof.
  intros Hbody. induction recs as [|row recs IH]; intros st T st' T'; simpl.
  { by intros [= <- <-]. }
  destruct (body st T row) as [st1 [e|T1]] eqn:E; [done|].
  intros Hrest HT. eapply IH; [exact Hrest|]. by eapply Hbody.
Qed.

Lemma SetMetrics_touched st recs st' T :
  SetMetrics st recs = (st', inr T) → T ⊆ dom (Result st').
Proof.
  unfold SetMetrics, processRows. destruct (singleColumnRows recs); [done|].
  intros Hrun. destruct (MultiDimensional (query st)).
  - eapply (rowLoop_touched multiRow); [|exact Hrun|set_solver].
    intros s T0 row s' T'. unfold multiRow. destruct (_ && _); [done|].
    apply multiColumns_touched.
  - eapply (rowLoop_touched singleRow); [|exact Hrun|set_solver].
    intros s T0 row s' T'. unfold singleRow. destruct (_ && _); [done|].
    destruct (singleColumns _ _ _ _ _ _) as [[fc dv] []]; simpl; [|done].
    apply registerAndSet_touched.
Qed.

(** C2.  After [RemoveMissingMetrics] with the touched set [T], a key of
    [r.Result] that is not in [T] is gone from [r.Result] and its gauge
    is not registered any more; a key that is in [T] still maps to its
    gauge, which is still registered and holds the value it held.  So
    every key that the batch just processed has touched is kept. *)
Theorem reap_contract st (T : gset string) :
  well_formed st →
  (∀ key p, Result st !! key = Some p →
     (key ∉ T →
        Result (RemoveMissingMetrics st T) !! key = None ∧
        p ∉ registry (RemoveMissingMetrics st T)) ∧
     (key ∈ T →
        Result (RemoveMissingMetrics st T) !! key = Some p ∧
        p ∈ registry (RemoveMissingMetrics st T) ∧
        gauges (RemoveMissingMetrics st T) !! p = gauges st !! p)) ∧
  (∀ st0 recs, SetMetrics st0 recs = (st, inr T) →
     ∀ key, key ∈ T →
       is_Some (Result st !! key) ∧
       Result (RemoveMissingMetrics st T) !! key = Result st !! key).
Proof.
  intros [Hreg Hinj].
  destruct (reap_fold st T (Result st)) as (_ & Hg & _ & Hr).
  fold (RemoveMissingMetrics st T) in Hg, Hr. split.
  - intros key p Hp. split; intros HT.
    + rewrite RemoveMissingMetrics_Result, decide_False by done. split; [done|].
      rewrite Hr. intros [_ Hm]. by apply HT, (Hm key).
    + rewrite RemoveMissingMetrics_Result, decide_True by done. split; [done|].
      rewrite Hg, Hr. split; [|done]. split; [by apply (Hreg key)|].
      intros k Hk. by rewrite (Hinj k key p Hk Hp).
  - intros st0 recs Hrun key HT. split.
    + apply elem_of_dom. by apply (SetMetrics_touched _ _ _ _ Hrun).
    + by rewrite RemoveMissingMetrics_Result, decide_True.
Qed.

(** ** The same rows a second time *)

Lemma grows_length st st' : grows st st' → (length (gauges st) ≤ length (gauges st'))%nat.
Proof.
  intros (_ & _ & Hg). destruct (gauges st) as [|g0 h] eqn:E using rev_ind;
    [simpl; lia|].
  clear IHh. destruct (Hg (length h) g0) as (g' & Hg' & _).
  { by rewrite lookup_app_r, Nat.sub_diag. }
  apply lookup_lt_Some in Hg'. rewrite length_app; simpl. lia.
Qed.

Lemma same_config_fields q q' :
  same_config q q' →
  MultiDimensional q' = MultiDimensional q ∧ DataField q' = DataField q ∧
  DataLabels q' = DataLabels q ∧ DataLabelName q' = DataLabelName q ∧
  DataMetric q' = DataMetric q ∧ DataMetricUnset q' = DataMetricUnset q.
Proof. intros <-. by destruct q. Qed.

Lemma same_config_with_name q q' n :
  same_config q q' → with_name q' n = with_name q n.
Proof. intros <-. by destruct q. Qed.

Lemma query_after_same_config qa qa' qb qb' :
  same_config qa qb → query_after qa qa' qb qb' → same_config qa' qb'.
Proof. intros Hc [->|[-> ->]]; [reflexivity|done]. Qed.

Lemma query_after_trans qa qa1 qa' qb qb1 qb' :
  query_after qa qa1 qb qb1 → query_after qa1 qa' qb1 qb' →
  query_after qa qa' qb qb'.
Proof.
  intros [->|[-> ->]] [->|[-> ->]]; unfold query_after; auto.
Qed.

#[local] Instance same_series_refl : Reflexive same_series.
Proof. by intros st. Qed.

#[local] Instance same_series_trans : Transitive same_series.
Proof.
  intros s1 s2 s3 (A1 & B1 & C1) (A2 & B2 & C2). unfold same_series.
  by rewrite A1, B1, C1.
Qed.

(** A registration and [Set] that went through once goes through again,
    with the same touched set, in any state that already has what the
    first one left; it registers nothing. *)
Lemma registerAndSet_again sa T fc v sa1 T1 sb :
  registerAndSet sa T fc v = (sa1, inr T1) →
  Result sa1 ⊆ Result sb →
  (length (gauges sa1) ≤ length (gauges sb))%nat →
  ∃ sb1, registerAndSet sb T fc v = (sb1, inr T1) ∧
         same_series sb sb1 ∧ query sb1 = query sb.
Proof.
  unfold registerAndSet.
  pose proof (registerMetric_is_Some sa fc) as [p Hp].
  pose proof (registerMetric_key sa fc) as Hkey.
  destruct (registerMetric sa fc) as [sa0 key]; simpl in *. subst key.
  rewrite Hp. unfold setValueForResult.
  destruct (coerce v) as [e|f] eqn:Hv; [done|].
  destruct (gauges sa0 !! p) as [g|] eqn:Hg; [|done].
  intros [= <- <-]; simpl. rewrite length_insert. intros Hsub Hlen.
  assert (Result sb !! resultKey fc = Some p) as Hpb
    by by eapply lookup_weaken.
  rewrite (registerMetric_known sb fc p Hpb); simpl. rewrite Hpb.
  apply lookup_lt_Some in Hg.
  destruct (lookup_lt_is_Some_2 (gauges sb) p) as [g' Hg']; [lia|].
  rewrite Hg'. eexists. split; [done|]. split; [|done].
  split; [done|]. split; [done|]. simpl. by rewrite length_insert.
Qed.

Lemma multiColumnVars_again sa sb rv k v :
  same_config (query sa) (query sb) →
  (multiColumnVars sb rv k v).2 = (multiColumnVars sa rv k v).2 ∧
  same_series sb (multiColumnVars sb rv k v).1 ∧
  gauges (multiColumnVars sa rv k v).1 = gauges sa ∧
  Result (multiColumnVars sa rv k v).1 = Result sa ∧
  query_after (query sa) (query (multiColumnVars sa rv k v).1)
              (query sb) (query (multiColumnVars sb rv k v).1).
Proof.
  intros Hc. destruct (same_config_fields _ _ Hc) as (_ & _ & HL & HN & HM & _).
  unfold multiColumnVars. rewrite HL, HN, HM.
  destruct (labelLoop k v (DataLabels (query sa)) (facet rv) false) as [f1 []];
    simpl; [by repeat split; try right|].
  case_decide; simpl; [|by repeat split; try right].
  repeat split. left. by apply same_config_with_name.
Qed.

Lemma multiColumns_again row : ∀ sa T rv sa' T' sb,
  multiColumns sa T rv row = (sa', inr T') →
  same_config (query sa) (query sb) →
  Result sa' ⊆ Result sb →
  (length (gauges sa') ≤ length (gauges sb))%nat →
  ∃ sb', multiColumns sb T rv row = (sb', inr T') ∧ same_series sb sb' ∧
         query_after (query sa) (query sa') (query sb) (query sb').
Proof.
  induction row as [|[k v] row IH]; intros sa T rv sa' T' sb; simpl.
  { intros [= <- <-] _ _ _. exists sb. by repeat split; try right. }
  intros Hrun Hc Hsub Hlen.
  destruct (multiColumnVars_again sa sb rv k v Hc) as (Hrv & Hs1 & Hg1 & HR1 & Hq1).
  destruct (multiColumnVars sa rv k v) as [sa1 rv1];
    destruct (multiColumnVars sb rv k v) as [sb1 rv1']; simpl in *. subst rv1'.
  destruct (registerAndSet sa1 T (facet rv1) (dataVal rv1)) as [sa2 [e|T2]] eqn:E;
    [done|].
  pose proof (multiColumns_step_ok row sa2 T2 rv1) as [Hgr _].
  rewrite Hrun in Hgr; simpl in Hgr.
  destruct Hs1 as (HRb & Hrb & Hlb).
  destruct (registerAndSet_again _ _ _ _ _ _ sb1 E) as (sb2 & -> & Hs2 & Hq2).
  { rewrite <-HRb. trans (Result sa'); [apply Hgr|done]. }
  { rewrite <-Hlb. etrans; [by apply grows_length|done]. }
  pose proof (registerAndSet_query sa1 T (facet rv1) (dataVal rv1)) as Hqa2.
  rewrite E in Hqa2; simpl in Hqa2.
  destruct Hs2 as (HRb2 & Hrb2 & Hlb2).
  destruct (IH sa2 T2 rv1 sa' T' sb2 Hrun) as (sb' & -> & Hs3 & Hq3).
  { rewrite Hqa2, Hq2. by eapply query_after_same_config. }
  { by rewrite <-HRb2, <-HRb. }
  { by rewrite <-Hlb2, <-Hlb. }
  exists sb'. split; [done|]. split.
  - trans sb2; [|done]. unfold same_series. by rewrite HRb, Hrb, Hlb.
  - eapply query_after_trans; [exact Hq1|]. by rewrite <-Hqa2, <-Hq2.
Qed.

Lemma multiRow_again : body_again multiRow.
Proof.
  intros sa T row sa' T' sb Hrun Hc. unfold multiRow in *.
  destruct (same_config_fields _ _ Hc) as (_ & _ & _ & _ & _ & ->).
  destruct (_ && _); [done|]. by apply multiColumns_again.
Qed.

Lemma singleRow_again : body_again singleRow.
Proof.
  intros sa T row sa' T' sb Hrun Hc Hsub Hlen. unfold singleRow in *.
  destruct (same_config_fields _ _ Hc) as (_ & -> & _).
  destruct (_ && _); [done|].
  destruct (singleColumns _ _ _ _ _ _) as [[fc dv] []]; simpl in *; [|done].
  destruct (registerAndSet_again _ _ _ _ _ _ sb Hrun Hsub Hlen)
    as (sb' & -> & Hs & Hq).
  exists sb'. split; [done|]. split; [done|]. right.
  pose proof (registerAndSet_query sa T fc dv) as Hqa. rewrite Hrun in Hqa.
  done.
Qed.

Lemma rowLoop_again body recs :
  body_again body →
  (∀ st touched row, step_ok st (body st touched row).1) →
  ∀ sa T sa' T' sb,
    rowLoop body sa T recs = (sa', inr T') →
    same_config (query sa) (query sb) →
    Result sa' ⊆ Result sb →
    (length (gauges sa') ≤ length (gauges sb))%nat →
    ∃ sb', rowLoop body sb T recs = (sb', inr T') ∧ same_series sb sb' ∧
           query_after (query sa) (query sa') (query sb) (query sb').
Proof.
  intros Hbody Hok. induction recs as [|row recs IH];
    intros sa T sa' T' sb; simpl.
  { intros [= <- <-] _ _ _. exists sb. by repeat split; try right. }
  destruct (body sa T row) as [sa1 [e|T1]] eqn:E; [done|].
  intros Hrun Hc Hsub Hlen.
  pose proof (rowLoop_step_ok body recs Hok sa1 T1) as [Hgr _].
  rewrite Hrun in Hgr; simpl in Hgr.
  destruct (Hbody _ _ _ _ _ sb E Hc) as (sb1 & -> & Hs1 & Hq1).
  { trans (Result sa'); [apply Hgr|done]. }
  { etrans; [by apply grows_length|done]. }
  destruct Hs1 as (HRb & Hrb & Hlb).
  destruct (IH sa1 T1 sa' T' sb1 Hrun) as (sb' & -> & Hs2 & Hq2).
  { by eapply query_after_same_config. }
  { by rewrite <-HRb. }
  { by rewrite <-Hlb. }
  exists sb'. split; [done|]. split.
  - trans sb1; [|done]. by split; [|split].
  - by eapply query_after_trans.
Qed.

(** C8, with the order of the columns fixed.  When [SetMetrics] has
    processed a batch, processing the same rows again, each with its
    columns visited in the same order, returns the same touched set and
    changes neither [r.Result] nor the registry nor the number of gauge
    objects: every gauge is reused, nothing is registered, and every
    touched key has its one gauge. *)
Theorem same_rows_twice st recs st1 T :
  SetMetrics st recs = (st1, inr T) →
  ∃ st2, SetMetrics st1 recs = (st2, inr T) ∧
         Result st2 = Result st1 ∧ registry st2 = registry st1 ∧
         length (gauges st2) = length (gauges st1) ∧
         query st2 = query st1 ∧ T ⊆ dom (Result st2).
Proof.
  intros Hrun. pose proof (SetMetrics_touched _ _ _ _ Hrun) as HT.
  pose proof (SetMetrics_step_ok st recs) as (_ & Hc & _).
  rewrite Hrun in Hc; simpl in Hc.
  destruct (same_config_fields _ _ Hc) as (Hm & _).
  unfold SetMetrics, processRows in *. rewrite Hm.
  destruct (singleColumnRows recs); [done|].
  destruct (MultiDimensional (query st)).
  - destruct (rowLoop_again multiRow recs multiRow_again multiRow_step_ok
                _ _ _ _ st1 Hrun Hc) as (st2 & -> & (HR & Hr & Hl) & Hq); [done..|].
    exists st2. rewrite <-HR, <-Hr, <-Hl. repeat split; try done.
    by destruct Hq as [->|[_ ->]].
  - destruct (rowLoop_again singleRow recs singleRow_again singleRow_step_ok
                _ _ _ _ st1 Hrun Hc) as (st2 & -> & (HR & Hr & Hl) & Hq); [done..|].
    exists st2. rewrite <-HR, <-Hr, <-Hl. repeat split; try done.
    by destruct Hq as [->|[_ ->]].
Qed.

(** ** The name taken from a column *)

Lemma labelLoop_no_label k v labels : ∀ fc b,
  Forall (λ label, Strings.ToLower k ≠ Strings.ToLower label) labels →
  labelLoop k v labels fc b = (fc, b).
Proof.
  induction labels as [|label labels IH]; intros fc b Hl; simpl; [done|].
  apply Forall_cons in Hl as [Hne Hl]. rewrite decide_False by done. by apply IH.
Qed.

(** C7, as the code has it.  When a column that is no label has the name
    of the metric-name column and its text has none of [%], [(], [)],
    the name of the query becomes that text with every character
    outside [[a-zA-Z0-9_]] replaced by an underscore and the white space
    around trimmed, which is what the two passes give; the rest of the
    query is as it was.  The name stays through the registrations and
    through the columns that are not the metric-name column, and a gauge
    registered from then on carries it. *)
Theorem metric_name_override st rv (k v : string) :
  Forall (λ label, Strings.ToLower k ≠ Strings.ToLower label)
         (DataLabels (query st)) →
  Strings.ToLower k = DataMetric (query st) →
  Forall (λ c, Strings.ignoreNameChar c = false) (list_ascii_of_string v) →
  query (multiColumnVars st rv k (VString v)).1
    = with_name (query st) (sanitize_two_passes v) ∧
  sanitize_two_passes v
    = Strings.TrimSpace (Strings.ReplaceAllString Strings.invalidNameChar v "_") ∧
  (∀ st1 touched fc dv, query (registerAndSet st1 touched fc dv).1 = query st1) ∧
  (∀ st1 rv1 k1 v1,
     Strings.ToLower k1 ≠ DataMetric (query st1) →
     query (multiColumnVars st1 rv1 k1 v1).1 = query st1) ∧
  (∀ st1 facets,
     Name (query st1) = sanitize_two_passes v →
     Result st1 !! resultKey facets = None →
     ∃ g, Result (registerMetric st1 facets).1 !! resultKey facets
            = Some (length (gauges st1)) ∧
          gauges (registerMetric st1 facets).1 !! length (gauges st1) = Some g ∧
          gName g = "query_result_" +:+ sanitize_two_passes v).
Proof.
  intros Hlabels Hmetric Hchars.
  assert (sanitize_two_passes v = overrideName v) as Hsan.
  { unfold sanitize_two_passes, overrideName.
    by rewrite (ReplaceAllString_none Strings.ignoreNameChar v "") by done. }
  split; [|split; [|split; [|split]]].
  - unfold multiColumnVars. rewrite labelLoop_no_label by done.
    rewrite decide_True by done. simpl. by rewrite Hsan.
  - by rewrite Hsan.
  - intros. apply registerAndSet_query.
  - intros st1 rv1 k1 v1 Hne. unfold multiColumnVars.
    destruct (labelLoop _ _ _ _ _) as [f1 []]; [done|].
    by rewrite decide_False.
  - intros st1 facets Hname Hnone. unfold registerMetric. rewrite Hnone; simpl.
    eexists. split; [by rewrite lookup_insert_eq|]. split.
    + by rewrite lookup_app_r, Nat.sub_diag.
    + simpl. by rewrite Hname.
Qed.

(** ** The examples *)

Lemma region_orders :
  permutations region_row =
  [ [("region", VString "eu"); ("cpu", VInt 10); ("mem", VInt 20)];
    [("cpu", VInt 10); ("region", VString "eu"); ("mem", VInt 20)];
    [("cpu", VInt 10); ("mem", VInt 20); ("region", VString "eu")];
    [("region", VString "eu"); ("mem", VInt 20); ("cpu", VInt 10)];
    [("mem", VInt 20); ("region", VString "eu"); ("cpu", VInt 10)];
    [("mem", VInt 20); ("cpu", VInt 10); ("region", VString "eu")] ].
Proof. reflexivity. Qed.

(** C1, as the code runs.  On the row of the example, in whichever order
    [range] visits its three columns, [SetMetrics] does not give the two
    series of the specification: with the metric-column condition set it
    fails on the guard, and otherwise it either fails on the unassigned
    [dataVal] of a label column visited first, one gauge already
    registered, or succeeds with three keys touched and three series. *)
Theorem region_example_every_order (row : record) :
  region_row ≡ₚ row →
  region_run true row
    = (NewQueryResult (region_query true) [] ∅, inl MissingDataMetricColumn) ∧
  ((region_run false row).2 = inl (UnsupportedValueType VNil) ∧
   size (Result (region_run false row).1) = 1%nat
   ∨
   (region_run false row).2 = inr (touched_keys (region_run false row).2) ∧
   size (touched_keys (region_run false row).2) = 3%nat ∧
   size (Result (region_run false row).1) = 3%nat).
Proof.
  intros Hp. apply permutations_Permutation in Hp. rewrite region_orders in Hp.
  repeat (apply elem_of_cons in Hp as [->|Hp]);
    try (by apply elem_of_nil in Hp); by_compute.
Qed.

(** The labels of a gauge are lower-cased values, and the facet names of
    the single-dimensional strategy are lower-cased column names. *)
Lemma labelsOf_lower_cased (facets : gmap string Scalar) k s :
  labelsOf facets !! k = Some s → Strings.ToLower s = s.
Proof.
  unfold labelsOf. rewrite lookup_fmap.
  destruct (facets !! k); simpl; [|done]. intros [= <-]. apply ToLower_idemp.
Qed.

Lemma singleColumns_names_lower_cased dataField n row : ∀ fc dv df,
  (∀ k, is_Some (fc !! k) → Strings.ToLower k = k) →
  ∀ k, is_Some ((singleColumns dataField n row fc dv df).1.1 !! k) →
       Strings.ToLower k = k.
Proof.
  induction row as [|[c v] row IH]; intros fc dv df Hfc; simpl; [done|].
  destruct (_ && _); apply IH; [|done].
  intros k. rewrite lookup_insert. case_decide as Hk; [|apply Hfc].
  intros _. subst k. apply ToLower_idemp.
Qed.

(** C4, as the code runs.  Two rows that differ in the case of a label
    value get two keys and two gauges, and the two gauges are registered
    with the same name and the same lower-cased labels; two rows that
    differ in the case of a label name get one key and one gauge. *)
Theorem label_case_example :
  (host_run host_rows_value_case).2
    = inr {[ resultKey {[ "host" := VString "A" ]};
             resultKey {[ "host" := VString "a" ]} ]} ∧
  resultKey {[ "host" := VString "A" ]} ≠ resultKey {[ "host" := VString "a" ]} ∧
  exposed (host_run host_rows_value_case).1
    = [ ("query_result_example", {[ "host" := "a" ]});
        ("query_result_example", {[ "host" := "a" ]}) ] ∧
  registry (host_run host_rows_value_case).1 = {[ 0%nat; 1%nat ]} ∧
  (host_run host_rows_name_case).2
    = inr {[ resultKey {[ "host" := VString "a" ]} ]} ∧
  exposed (host_run host_rows_name_case).1
    = [ ("query_result_example", {[ "host" := "a" ]}) ].
Proof. by_compute. Qed.

(** * Further properties of [set.go] *)

(** ** [registerMetric] and the [Set] that follows it *)

(** X1.  Registering the same facets a second time returns the same key
    and changes nothing: no second gauge is made or registered. *)
Theorem registerMetric_twice st facets :
  registerMetric (registerMetric st facets).1 facets = registerMetric st facets.
Proof.
  pose proof (registerMetric_is_Some st facets) as [p Hp].
  pose proof (registerMetric_key st facets) as Hk.
  destruct (registerMetric st facets) as [st1 key] eqn:E; simpl in *. subst key.
  by apply registerMetric_known with p.
Qed.

Lemma registerMetric_gauges st facets p g :
  gauges st !! p = Some g → gauges (registerMetric st facets).1 !! p = Some g.
Proof.
  intros Hg. unfold registerMetric.
  destruct (Result st !! resultKey facets); simpl; [done|].
  by apply lookup_app_l_Some.
Qed.

(** X2.  After a registration and [Set] that went through, the key of
    the facets maps to a gauge that holds the coerced value of the row,
    the key has joined the touched set, and every other gauge that was
    there holds what it held. *)
Theorem set_then_read st touched fc v st' touched' :
  registerAndSet st touched fc v = (st', inr touched') →
  ∃ p g f,
    coerce v = inr f ∧
    Result st' !! resultKey fc = Some p ∧
    gauges st' !! p = Some g ∧ gValue g = f ∧
    touched' = {[resultKey fc]} ∪ touched ∧
    ∀ p' g', p' ≠ p → gauges st !! p' = Some g' → gauges st' !! p' = Some g'.
Proof.
  unfold registerAndSet.
  pose proof (registerMetric_key st fc) as Hk.
  pose proof (registerMetric_gauges st fc) as Hold.
  destruct (registerMetric st fc) as [st1 key]; simpl in *. subst key.
  unfold setValueForResult. destruct (coerce v) as [e|f]; [done|].
  destruct (Result st1 !! resultKey fc) as [p|] eqn:Hp; [|done].
  destruct (gauges st1 !! p) as [g0|] eqn:Hg; [|done].
  intros [= <- <-]; simpl. exists p, (set_value g0 f), f.
  split; [done|]. split; [done|]. split.
  { apply list_lookup_insert_eq. by eapply lookup_lt_Some. }
  split; [done|]. split; [done|].
  intros p' g' Hne Hg'. rewrite list_lookup_insert_ne by done. by apply Hold.
Qed.

(** X3.  When the value of the row cannot be coerced, the call returns
    the error of the coercion with the facets registered all the same:
    the key is in [r.Result], and a gauge made for it is registered and
    holds zero. *)
Theorem failed_set_keeps_registration st touched fc v e :
  coerce v = inl e →
  registerAndSet st touched fc v = ((registerMetric st fc).1, inl e) ∧
  is_Some (Result (registerMetric st fc).1 !! resultKey fc) ∧
  (Result st !! resultKey fc = None →
     length (gauges st) ∈ registry (registerMetric st fc).1 ∧
     ∃ g, gauges (registerMetric st fc).1 !! length (gauges st) = Some g ∧
          gValue g = S754_zero false ∧ gConstLabels g = labelsOf fc).
Proof.
  intros Hv. split; [|split].
  - unfold registerAndSet. destruct (registerMetric st fc) as [st1 key]; simpl.
    unfold setValueForResult. by rewrite Hv.
  - apply registerMetric_is_Some.
  - intros Hnone. unfold registerMetric. rewrite Hnone; simpl. split.
    + by apply elem_of_union_l, elem_of_singleton.
    + eexists. split; [by rewrite lookup_app_r, Nat.sub_diag|]. done.
Qed.

(** ** The name taken from a column, in general *)








(** ** The columns of the multi-dimensional strategy *)

Lemma labelLoop_label k v labels : ∀ fc b,
  Exists (λ label, Strings.ToLower k = Strings.ToLower label) labels →
  labelLoop k v labels fc b = (<[Strings.ToLower k := v]> fc, true).
Proof.
  induction labels as [|label labels IH]; intros fc b Hex; simpl.
  { by apply Exists_nil in Hex. }
  destruct (decide (Strings.ToLower k = Strings.ToLower label)) as [Heq|Hne].
  - rewrite <-Heq.
    destruct (decide (Exists (λ l, Strings.ToLower k = Strings.ToLower l) labels))
      as [Hex'|Hno].
    + rewrite IH by done. by rewrite insert_insert_eq.
    + apply not_Exists_Forall in Hno; [|intros l; apply _].
      rewrite labelLoop_no_label; [done|].
      eapply Forall_impl; [exact Hno|]. simpl. intros l Hl. exact Hl.
  - apply Exists_cons in Hex as [?|Hex]; [done|]. by apply IH.
Qed.

(** X5.  What a column of a multi-dimensional row does before the
    registration, by its name.  A column whose name is a label up to
    case is stored under its lower-cased name, once, and nothing else
    happens, also when its name is that of the metric-name column.  Any
    other column whose lower-cased name is [DataMetric] changes only the
    name of the query.  Every other column becomes the data value and
    its name, as it is written, the value of the label
    [DataLabelName]. *)
Theorem multi_column_kinds st rv k v :
  (Exists (λ label, Strings.ToLower k = Strings.ToLower label)
          (DataLabels (query st)) →
     multiColumnVars st rv k v
     = (st, mkRowVars (<[Strings.ToLower k := v]> (facet rv)) (dataVal rv))) ∧
  (Forall (λ label, Strings.ToLower k ≠ Strings.ToLower label)
          (DataLabels (query st)) →
     (Strings.ToLower k = DataMetric (query st) →
        multiColumnVars st rv k v
        = (with_query st (with_name (query st) (overrideName (Sprint v))), rv)) ∧
     (Strings.ToLower k ≠ DataMetric (query st) →
        multiColumnVars st rv k v
        = (st, mkRowVars (<[DataLabelName (query st) := VString k]> (facet rv)) v))).
Proof.
  unfold multiColumnVars. split.
  - intros Hex. by rewrite labelLoop_label.
  - intros Hno. rewrite labelLoop_no_label by done. split; intros Hm.
    + rewrite decide_True by done. by destruct rv.
    + by rewrite decide_False.
Qed.

(** ** Invariants of the reachable states *)

(** A property of the state that the registration with its [Set] and the
    handling of a column keep is kept by [SetMetrics]. *)
Lemma multiColumns_preserves (P : State → Prop) row :
  (∀ st touched fc v, P st → P (registerAndSet st touched fc v).1) →
  (∀ st rv k v, P st → P (multiColumnVars st rv k v).1) →
  ∀ st touched rv, P st → P (multiColumns st touched rv row).1.
Proof.
  intros Hset Hcol. induction row as [|[k v] row IH]; intros st touched rv HP;
    simpl; [done|].
  pose proof (Hcol st rv k v HP) as H1.
  destruct (multiColumnVars st rv k v) as [st1 rv1]; simpl in *.
  pose proof (Hset st1 touched (facet rv1) (dataVal rv1) H1) as H2.
  destruct (registerAndSet st1 touched (facet rv1) (dataVal rv1)) as [st2 [e|t2]];
    simpl in *; [done|]. by apply IH.
Qed.

Lemma rowLoop_preserves (P : State → Prop) body recs :
  (∀ st touched row, P st → P (body st touched row).1) →
  ∀ st touched, P st → P (rowLoop body st touched recs).1.
Proof.
  intros Hbody. induction recs as [|row recs IH]; intros st touched HP; simpl;
    [done|].
  pose proof (Hbody st touched row HP) as H1.
  destruct (body st touched row) as [st1 [e|t1]]; simpl in *; [done|]. by apply IH.
Qed.

Lemma SetMetrics_preserves (P : State → Prop) :
  (∀ st touched fc v, P st → P (registerAndSet st touched fc v).1) →
  (∀ st rv k v, P st → P (multiColumnVars st rv k v).1) →
  ∀ st recs, P st → P (SetMetrics st recs).1.
Proof.
  intros Hset Hcol st recs HP. unfold SetMetrics, processRows.
  destruct (singleColumnRows recs); simpl; [done|].
  destruct (MultiDimensional (query st)).
  - apply rowLoop_preserves; [|done]. intros s T row Hs. unfold multiRow.
    destruct (_ && _); simpl; [done|]. by apply multiColumns_preserves.
  - apply rowLoop_preserves; [|done]. intros s T row Hs. unfold singleRow.
    destruct (_ && _); simpl; [done|].
    destruct (singleColumns _ _ _ _ _ _) as [[fc dv] []]; simpl; [|done].
    by apply Hset.
Qed.

Lemma registerAndSet_labelled st touched fc v :
  labelled st → labelled (registerAndSet st touched fc v).1.
Proof.
  intros HL. unfold registerAndSet.
  assert (labelled (registerMetric st fc).1) as HL1.
  { unfold registerMetric. destruct (Result st !! resultKey fc) eqn:E; simpl;
      [done|].
    intros key p. simpl. rewrite lookup_insert. case_decide as Hk.
    - intros [= <-]. eexists _, fc.
      split; [by rewrite lookup_app_r, Nat.sub_diag|]. by subst key.
    - intros Hp. destruct (HL key p Hp) as (g & fc' & Hg & ?).
      exists g, fc'. split; [|done]. by apply lookup_app_l_Some. }
  destruct (registerMetric st fc) as [st1 key]; simpl in *.
  destruct (setValueForResult _ _ _) as [e|h] eqn:E; simpl; [done|].
  apply setValueForResult_gauges in E as [_ Hh].
  intros k p Hp. destruct (HL1 k p Hp) as (g & fc' & Hg & Hk & Hl & Hhelp).
  destruct (Hh p g Hg) as (g' & Hg' & _ & S2 & S3).
  exists g', fc'. simpl. by rewrite <-S2, <-S3.
Qed.

Lemma RemoveMissingMetrics_labelled st T :
  labelled st → labelled (RemoveMissingMetrics st T).
Proof.
  intros HL key p. rewrite RemoveMissingMetrics_Result.
  destruct (reap_fold st T (Result st)) as (_ & Hg & _).
  fold (RemoveMissingMetrics st T) in Hg. rewrite Hg.
  case_decide; [apply HL|done].
Qed.

(** X6.  In every state that comes from [NewQueryResult] through
    [SetMetrics] and [RemoveMissingMetrics], whatever they returned,
    each key of [r.Result] has a gauge of its own that exists and is
    registered, the key is the facet key of some facets, and the labels
    of the gauge are these facets with their values in text and
    lower-cased. *)
Theorem reachable_state_invariant st :
  reachable st →
  well_formed st ∧ labelled st ∧
  ∀ key p g name s,
    Result st !! key = Some p → gauges st !! p = Some g →
    gConstLabels g !! name = Some s → Strings.ToLower s = s.
Proof.
  intros Hreach. assert (labelled st) as HL.
  { induction Hreach as [q h reg|st recs _ IH|st T _ IH].
    - intros key p. unfold NewQueryResult; simpl. by rewrite lookup_empty.
    - apply SetMetrics_preserves; [apply registerAndSet_labelled| |done].
      intros s rv k v Hs. unfold multiColumnVars.
      destruct (labelLoop _ _ _ _ _) as [f1 []]; [done|]. by case_decide.
    - by apply RemoveMissingMetrics_labelled. }
  split; [by apply reachable_well_formed|]. split; [done|].
  intros key p g name s Hp Hg Hs.
  destruct (HL key p Hp) as (g' & fc & Hg' & _ & Hl & _).
  rewrite Hg in Hg'. injection Hg' as <-. rewrite Hl in Hs.
  by eapply labelsOf_lower_cased.
Qed.

(** X7.  [SetMetrics] removes nothing, whether it returns an error or
    not: every key keeps its gauge, every registered gauge stays
    registered, every gauge object keeps its name, help and labels, and
    of the query only the name can have changed. *)
Theorem SetMetrics_never_removes st recs :
  grows st (SetMetrics st recs).1 ∧
  same_config (query st) (query (SetMetrics st recs).1) ∧
  (length (gauges st) ≤ length (gauges (SetMetrics st recs).1))%nat.
Proof.
  destruct (SetMetrics_step_ok st recs) as (Hg & Hc & _).
  split; [done|]. split; [done|]. by apply grows_length.
Qed.

Lemma multiColumnVars_query st rv k v :
  Strings.ToLower k ≠ DataMetric (query st) →
  query (multiColumnVars st rv k v).1 = query st.
Proof.
  intros Hne. unfold multiColumnVars.
  destruct (labelLoop _ _ _ _ _) as [f1 []]; [done|]. by rewrite decide_False.
Qed.

Lemma multiColumns_query row : ∀ st touched rv,
  Forall (λ kv, Strings.ToLower kv.1 ≠ DataMetric (query st)) row →
  query (multiColumns st touched rv row).1 = query st.
Proof.
  induction row as [|[k v] row IH]; intros st touched rv Hrow; simpl; [done|].
  apply Forall_cons in Hrow as [Hk Hrow]; simpl in Hk.
  pose proof (multiColumnVars_query st rv k v Hk) as H1.
  destruct (multiColumnVars st rv k v) as [st1 rv1]; simpl in *.
  pose proof (registerAndSet_query st1 touched (facet rv1) (dataVal rv1)) as H2.
  destruct (registerAndSet st1 touched (facet rv1) (dataVal rv1)) as [st2 [e|t2]];
    simpl in *; [congruence|].
  rewrite IH; [congruence|]. by rewrite H2, H1.
Qed.

Lemma rowLoop_query body recs q :
  (∀ st touched row, query st = q → row ∈ recs →
     query (body st touched row).1 = q) →
  ∀ st touched, query st = q → query (rowLoop body st touched recs).1 = q.
Proof.
  induction recs as [|row recs IH]; intros Hbody st touched Hq; simpl; [done|].
  pose proof (Hbody st touched row Hq (list_elem_of_here _ _)) as H1.
  destruct (body st touched row) as [st1 [e|t1]]; simpl in *; [done|].
  apply IH; [|done]. intros s T r Hs Hr. apply Hbody; [done|]. by right.
Qed.

Lemma SetMetrics_query st recs :
  MultiDimensional (query st) = false ∨
  Forall (Forall (λ kv, Strings.ToLower kv.1 ≠ DataMetric (query st))) recs →
  query (SetMetrics st recs).1 = query st.
Proof.
  intros Hcase. unfold SetMetrics, processRows.
  destruct (singleColumnRows recs); simpl; [done|].
  destruct (MultiDimensional (query st)) eqn:Hm.
  - destruct Hcase as [|Hrecs]; [done|].
    apply rowLoop_query; [|done]. intros s T row Hs Hrow. unfold multiRow.
    destruct (_ && _); simpl; [done|]. rewrite multiColumns_query; [done|].
    rewrite Hs. rewrite Forall_forall in Hrecs. by apply Hrecs.
  - apply rowLoop_query; [|done]. intros s T row Hs _. unfold singleRow.
    destruct (_ && _); simpl; [done|].
    destruct (singleColumns _ _ _ _ _ _) as [[fc dv] []]; simpl; [|done].
    by rewrite registerAndSet_query.
Qed.

(** X8.  The query is left as it is, its name too, when the strategy is
    the single-dimensional one, and in the multi-dimensional one when no
    column of the batch has, lower-cased, the name [DataMetric]. *)
Theorem query_unchanged st recs :
  MultiDimensional (query st) = false ∨
  Forall (Forall (λ kv, Strings.ToLower kv.1 ≠ DataMetric (query st))) recs →
  query (SetMetrics st recs).1 = query st.
Proof. apply SetMetrics_query. Qed.

(** X9.  The name of a column is lower-cased before it is compared with
    [DataMetric], and [DataMetric] is not: a [DataMetric] with an
    upper-case letter is the name of no column, and the name of the
    query is never taken from a row. *)
Theorem mixed_case_DataMetric_never_overrides st recs :
  Strings.ToLower (DataMetric (query st)) ≠ DataMetric (query st) →
  query (SetMetrics st recs).1 = query st.
Proof.
  intros Hmixed. apply SetMetrics_query. right.
  apply Forall_forall. intros row _. apply Forall_forall. intros [k v] _ Hk.
  simpl in Hk. apply Hmixed. rewrite <-Hk. apply ToLower_idemp.
Qed.

(** ** Reaping, in general *)

Lemma State_eq st st' :
  query st = query st' → Result st = Result st' →
  gauges st = gauges st' → registry st = registry st' → st = st'.
Proof. destruct st, st'; simpl. by intros -> -> -> ->. Qed.

Lemma RemoveMissingMetrics_registry st T p :
  p ∈ registry (RemoveMissingMetrics st T) ↔
  p ∈ registry st ∧ ∀ k, Result st !! k = Some p → k ∈ T.
Proof.
  destruct (reap_fold st T (Result st)) as (_ & _ & _ & Hr). apply Hr.
Qed.

Lemma RemoveMissingMetrics_rest st T :
  query (RemoveMissingMetrics st T) = query st ∧
  gauges (RemoveMissingMetrics st T) = gauges st.
Proof. destruct (reap_fold st T (Result st)) as (Hq & Hg & _). by split. Qed.

(** X10.  An empty batch goes through with nothing touched, and the
    reaping that follows it empties [r.Result] and takes every gauge of
    [r.Result] out of the registry; the gauge objects stay. *)
Theorem empty_batch_clears st :
  SetMetrics st [] = (st, inr ∅) ∧
  Result (RemoveMissingMetrics st ∅) = ∅ ∧
  (∀ key p, Result st !! key = Some p →
     p ∉ registry (RemoveMissingMetrics st ∅)) ∧
  gauges (RemoveMissingMetrics st ∅) = gauges st.
Proof.
  split; [|split; [|split]].
  - unfold SetMetrics, processRows; simpl. by destruct (MultiDimensional _).
  - apply map_eq. intros k. rewrite RemoveMissingMetrics_Result, lookup_empty.
    by rewrite decide_False by apply not_elem_of_empty.
  - intros key p Hp. rewrite RemoveMissingMetrics_registry. intros [_ Hall].
    by apply (not_elem_of_empty (C:=gset string) key), Hall.
  - apply RemoveMissingMetrics_rest.
Qed.

(** X11.  After a batch that went through and the reaping with the set
    it returned, the keys of [r.Result] are exactly the touched keys. *)
Theorem reap_leaves_touched st recs st1 T :
  SetMetrics st recs = (st1, inr T) →
  dom (Result (RemoveMissingMetrics st1 T)) = T.
Proof.
  intros Hrun. pose proof (SetMetrics_touched _ _ _ _ Hrun) as HT.
  apply set_eq. intros k. rewrite elem_of_dom, RemoveMissingMetrics_Result.
  case_decide as Hk.
  - split; [done|]. intros _. apply elem_of_dom. by apply HT.
  - split; [by intros [? ?]|done].
Qed.

(** X12.  Reaping with one set and then with another is reaping with
    the keys that are in both; in particular reaping twice with the same
    set is reaping once. *)
Theorem reap_compose st (T1 T2 : gset string) :
  RemoveMissingMetrics (RemoveMissingMetrics st T1) T2
  = RemoveMissingMetrics st (T1 ∩ T2) ∧
  RemoveMissingMetrics (RemoveMissingMetrics st T1) T1
  = RemoveMissingMetrics st T1.
Proof.
  assert (∀ A B : gset string,
            RemoveMissingMetrics (RemoveMissingMetrics st A) B
            = RemoveMissingMetrics st (A ∩ B)) as Hgen.
  { intros A B. apply State_eq.
    - destruct (RemoveMissingMetrics_rest (RemoveMissingMetrics st A) B) as [-> _].
      destruct (RemoveMissingMetrics_rest st A) as [-> _].
      by destruct (RemoveMissingMetrics_rest st (A ∩ B)) as [-> _].
    - apply map_eq. intros k. rewrite !RemoveMissingMetrics_Result.
      destruct (decide (k ∈ A)) as [HA|HA], (decide (k ∈ B)) as [HB|HB];
        [rewrite decide_True by by apply elem_of_intersection
        |rewrite decide_False by (rewrite elem_of_intersection; tauto)..];
        done.
    - destruct (RemoveMissingMetrics_rest (RemoveMissingMetrics st A) B) as [_ ->].
      destruct (RemoveMissingMetrics_rest st A) as [_ ->].
      by destruct (RemoveMissingMetrics_rest st (A ∩ B)) as [_ ->].
    - apply set_eq. intros p. rewrite !RemoveMissingMetrics_registry. split.
      + intros [[Hp HA] HB]. split; [done|]. intros k Hk.
        apply elem_of_intersection. split; [by apply HA|].
        apply HB. rewrite RemoveMissingMetrics_Result.
        by rewrite decide_True by by apply HA.
      + intros [Hp HAB]. split; [split; [done|]|].
        * intros k Hk. by apply HAB, elem_of_intersection in Hk as [? _].
        * intros k. rewrite RemoveMissingMetrics_Result.
          case_decide; [|done]. intros Hk.
          by apply HAB, elem_of_intersection in Hk as [_ ?]. }
  split; [apply Hgen|]. rewrite Hgen. by rewrite (idemp_L (∩) T1).
Qed.

(** X13.  Reaping works on the gauges of this [QueryResult] only: the
    registry can only lose gauges, a registered gauge that is under no
    key of [r.Result] stays registered, and neither the query nor a
    gauge object is changed. *)
Theorem reap_own_gauges_only st (T : gset string) :
  registry (RemoveMissingMetrics st T) ⊆ registry st ∧
  (∀ p, p ∈ registry st → (∀ k, Result st !! k ≠ Some p) →
        p ∈ registry (RemoveMissingMetrics st T)) ∧
  Result (RemoveMissingMetrics st T) ⊆ Result st ∧
  query (RemoveMissingMetrics st T) = query st ∧
  gauges (RemoveMissingMetrics st T) = gauges st.
Proof.
  split; [|split; [|split]].
  - intros p. rewrite RemoveMissingMetrics_registry. by intros [? _].
  - intros p Hp Hno. rewrite RemoveMissingMetrics_registry. split; [done|].
    intros k Hk. by destruct (Hno k).
  - apply map_subseteq_spec. intros k p. rewrite RemoveMissingMetrics_Result.
    by case_decide.
  - apply RemoveMissingMetrics_rest.
Qed.

(** ** The rows of the single-dimensional strategy *)

(** In a row of more than one column of which none has the name
    [dataField], every column is a facet and no data is found. *)
Lemma singleColumns_no_data dataField n row : ∀ fc dv df,
  (1 < n)%nat →
  Forall (λ kv, Strings.ToLower kv.1 ≠ dataField) row →
  (singleColumns dataField n row fc dv df).2 = df.
Proof.
  induction row as [|[k v] row IH]; intros fc dv df Hn Hrow; simpl; [done|].
  apply Forall_cons in Hrow as [Hk Hrow]; simpl in Hk.
  rewrite bool_decide_eq_true_2, bool_decide_eq_false_2 by done; simpl.
  by apply IH.
Qed.

Lemma singleRow_no_data st touched (row : record) :
  Forall (λ kv, Strings.ToLower kv.1 ≠ DataField (query st)) row →
  length row ≠ 1%nat →
  singleRow st touched row
  = (st, inl (if bool_decide (1 < length row)%nat
                 && bool_decide (DataField (query st) = "")
              then MissingDataField else DataFieldNotFound)).
Proof.
  intros Hrow Hlen. unfold singleRow.
  destruct (bool_decide (1 < length row)%nat && bool_decide (DataField (query st) = ""))
    eqn:G; [done|].
  destruct row as [|c row]; [done|].
  pose proof (singleColumns_no_data (DataField (query st)) (length (c :: row))
                (c :: row) ∅ VNil false) as Hno.
  destruct (singleColumns _ _ _ _ _ _) as [[fc dv] df]; simpl in *.
  rewrite Hno; [done| |done]. destruct row; simpl in *; [done|lia].
Qed.

(** X14.  A single-dimensional row without a data column is an error and
    leaves the state as it was: a row of no column, or one of several
    columns of which none has, lower-cased, the name [DataField], gives
    [DataFieldNotFound], or [MissingDataField] when it has several
    columns and [DataField] is empty. *)
Theorem data_field_errors st touched (row : record) :
  Forall (λ kv, Strings.ToLower kv.1 ≠ DataField (query st)) row →
  length row ≠ 1%nat →
  singleRow st touched row
  = (st, inl (if bool_decide (1 < length row)%nat
                 && bool_decide (DataField (query st) = "")
              then MissingDataField else DataFieldNotFound)).
Proof. apply singleRow_no_data. Qed.

(** X15.  The name of a column is lower-cased before it is compared with
    [DataField], and [DataField] is not: with a [DataField] that has an
    upper-case letter every row of more than one column fails with
    [DataFieldNotFound]. *)
Theorem mixed_case_DataField_never_found st touched (row : record) :
  Strings.ToLower (DataField (query st)) ≠ DataField (query st) →
  (1 < length row)%nat →
  singleRow st touched row = (st, inl DataFieldNotFound).
Proof.
  intros Hmixed Hlen. rewrite singleRow_no_data; [| |lia].
  - rewrite (bool_decide_eq_false_2 (DataField (query st) = "")).
    + by rewrite andb_false_r.
    + intros Hempty. apply Hmixed. by rewrite Hempty.
  - apply Forall_forall. intros [k v] _ Hk. simpl in Hk.
    apply Hmixed. rewrite <-Hk. apply ToLower_idemp.
Qed.

(** The column loop of a row of more than one column gives the same
    facets and the same data in whatever order the columns come, when
    their lower-cased names are distinct. *)
Lemma singleColumns_perm dataField n (row row' : record) :
  (1 < n)%nat → row ≡ₚ row' → lower_distinct row →
  ∀ fc dv df,
    singleColumns dataField n row fc dv df
    = singleColumns dataField n row' fc dv df.
Proof.
  intros Hn Hp. unfold lower_distinct.
  induction Hp as [|[k v] l l' Hp IH|[k1 v1] [k2 v2] l|l1 l2 l3 Hp1 IH1 Hp2 IH2];
    intros Hnd fc dv df; simpl in *.
  - done.
  - apply NoDup_cons in Hnd as [_ Hnd]. destruct (_ && _); by apply IH.
  - apply NoDup_cons in Hnd as [Hne _].
    apply not_elem_of_cons in Hne as [Hne _].
    rewrite (bool_decide_eq_true_2 (1 < n)%nat) by done; simpl.
    destruct (bool_decide (Strings.ToLower k1 = dataField)) eqn:E1;
      destruct (bool_decide (Strings.ToLower k2 = dataField)) eqn:E2; simpl;
      try done.
    + apply bool_decide_eq_true_1 in E1, E2. congruence.
    + by rewrite insert_insert_ne by done.
  - rewrite IH1 by done. apply IH2. by rewrite <-Hp1.
Qed.

Lemma singleRow_perm st touched (row row' : record) :
  lower_distinct row → row ≡ₚ row' →
  singleRow st touched row = singleRow st touched row'.
Proof.
  intros Hnd Hp. unfold singleRow. rewrite <-(Permutation_length Hp).
  destruct (decide (1 < length row)%nat) as [Hn|Hn].
  - by rewrite (singleColumns_perm _ _ row row').
  - destruct row as [|c [|c' row]]; simpl in Hn; [| |lia].
    + by apply Permutation_nil in Hp as ->.
    + by apply Permutation_singleton_l in Hp as ->.
Qed.

(** X16.  In the single-dimensional strategy the order in which [range]
    visits the columns of a row does not show: for a batch whose rows
    have column names that stay distinct when lower-cased, the state and
    the result of [SetMetrics] are the same for every order of the
    columns of every row. *)
Theorem single_dimensional_order_independent st (recs recs' : records) :
  MultiDimensional (query st) = false →
  Forall lower_distinct recs →
  same_batch recs recs' →
  SetMetrics st recs = SetMetrics st recs'.
Proof.
  intros Hsingle Hnd Hsame. unfold SetMetrics, processRows. rewrite Hsingle.
  assert (singleColumnRows recs = singleColumnRows recs') as <-.
  { destruct Hsame as [|r r' l l' Hr [|? ? ? ? _ _]]; simpl; try done.
    by rewrite (Permutation_length Hr). }
  destruct (singleColumnRows recs); [done|].
  generalize (∅ : gset string). revert st Hsingle.
  induction Hsame as [|row row' recs recs' Hrow Hsame IH]; intros st Hsingle T;
    simpl; [done|].
  apply Forall_cons in Hnd as [Hd Hnd].
  rewrite <-(singleRow_perm st T row row' Hd Hrow).
  pose proof (singleRow_step_ok st T row) as (_ & Hc & _).
  destruct (singleRow st T row) as [st1 [e|T1]]; simpl in *; [done|].
  apply IH; [done|].
  destruct (same_config_fields _ _ Hc) as [-> _]. done.
Qed.

(** ** A label column first *)

(** X17.  In the multi-dimensional strategy a row whose first visited
    column is a label fails: when the row passes the guard, the facets
    with that one label are registered, the [Set] of the unassigned
    [dataVal] returns the error for an unhandled type, and the rest of
    the row and of the batch is not looked at. *)
Theorem label_first_fails st touched k v (row : record) :
  Exists (λ label, Strings.ToLower k = Strings.ToLower label)
         (DataLabels (query st)) →
  row = [] ∨ DataMetricUnset (query st) = false →
  multiRow st touched ((k, v) :: row)
  = ((registerMetric st {[Strings.ToLower k := v]}).1,
     inl (UnsupportedValueType VNil)) ∧
  is_Some (Result (registerMetric st {[Strings.ToLower k := v]}).1
           !! resultKey {[Strings.ToLower k := v]}).
Proof.
  intros Hlabel Hguard. split; [|apply registerMetric_is_Some].
  unfold multiRow.
  assert (bool_decide (1 < length ((k, v) :: row))%nat
          && DataMetricUnset (query st) = false) as ->.
  { destruct Hguard as [->| ->]; [done|]. by rewrite andb_false_r. }
  simpl. unfold multiColumnVars. rewrite labelLoop_label by done. simpl.
  rewrite insert_empty. unfold registerAndSet.
  by destruct (registerMetric st _) as [st1 key].
Qed.

(** ** The same facets twice *)

(** X18.  When two rows of a batch give the same facets, the second
    [Set] is on the gauge of the first: no gauge is made or registered,
    the touched set stays as it is, and the gauge is left with the value
    of the second row. *)
Theorem last_value_wins st touched fc v1 v2 st1 touched1 f2 :
  registerAndSet st touched fc v1 = (st1, inr touched1) →
  coerce v2 = inr f2 →
  ∃ st2 p g,
    registerAndSet st1 touched1 fc v2 = (st2, inr touched1) ∧
    Result st2 = Result st1 ∧ registry st2 = registry st1 ∧
    length (gauges st2) = length (gauges st1) ∧
    Result st2 !! resultKey fc = Some p ∧
    gauges st2 !! p = Some g ∧ gValue g = f2.
Proof.
  unfold registerAndSet at 1.
  pose proof (registerMetric_key st fc) as Hk.
  destruct (registerMetric st fc) as [st0 key]; simpl in *. subst key.
  unfold setValueForResult. destruct (coerce v1) as [e|f1]; [done|].
  destruct (Result st0 !! resultKey fc) as [p|] eqn:Hp; [|done].
  destruct (gauges st0 !! p) as [g0|] eqn:Hg; [|done].
  intros [= <- <-] Hv2.
  assert (p < length (gauges st0))%nat as Hlt by by eapply lookup_lt_Some.
  unfold registerAndSet.
  rewrite (registerMetric_known (with_gauges st0 _) fc p) by done.
  unfold setValueForResult; simpl. rewrite Hv2, Hp.
  rewrite list_lookup_insert_eq by done.
  eexists _, p, _. split.
  { f_equal. f_equal. apply set_eq. intros k.
    rewrite !elem_of_union. tauto. }
  simpl. split; [done|]. split; [done|].
  split; [by rewrite !length_insert|]. split; [done|].
  split; [apply list_lookup_insert_eq; by rewrite length_insert|done].
Qed.

End Properties.

(** * The properties on concrete rows

    The statements above at concrete inputs, with the text of a
    [float64] read by [binary64_text]. *)

Lemma facet_key_order_independent_witness :
  NoDup [("region", VString "eu"); ("metric", VString "cpu")].*1 ∧
  resultKey (list_to_map [("region", VString "eu"); ("metric", VString "cpu")])
    = resultKey (list_to_map [("metric", VString "cpu"); ("region", VString "eu")]).
Proof.
  split; [by_compute|].
  apply (facet_key_order_independent
           [("region", VString "eu"); ("metric", VString "cpu")]
           [("metric", VString "cpu"); ("region", VString "eu")]); by_compute.
Defined.

Lemma error_removes_nothing_witness :
  (host_run host_rows_bad).2 = inl (UnsupportedValueType (VBool true)) ∧
  grows (NewQueryResult host_query [] ∅) (host_run host_rows_bad).1.
Proof.
  split; [by_compute|].
  apply (error_removes_nothing (NewQueryResult host_query [] ∅) host_rows_bad
           (host_run host_rows_bad).1 (UnsupportedValueType (VBool true))).
  by_compute.
Defined.

Lemma single_column_rows_rejected_witness :
  SetMetrics (NewQueryResult host_query [] ∅)
             [[("value", VInt 1)]; [("value", VInt 2)]]
  = (NewQueryResult host_query [] ∅, inl AmbiguousSingleColumnResult).
Proof.
  apply (single_column_rows_rejected (NewQueryResult host_query [] ∅)
           [("value", VInt 1)] [("value", VInt 2)] []).
  reflexivity.
Defined.



Lemma reap_contract_witness :
  well_formed (host_run host_rows_value_case).1 ∧
  ∀ key p, Result (host_run host_rows_value_case).1 !! key = Some p →
    key ∉ ({[ resultKey {[ "host" := VString "a" ]} ]} : gset string) →
    Result (RemoveMissingMetrics (host_run host_rows_value_case).1
              {[ resultKey {[ "host" := VString "a" ]} ]}) !! key = None.
Proof.
  assert (well_formed (host_run host_rows_value_case).1) as Hwf.
  { apply reachable_well_formed, reachable_set, reachable_new. }
  split; [done|]. intros key p Hp Hkey.
  by apply (reap_contract (host_run host_rows_value_case).1
              {[ resultKey {[ "host" := VString "a" ]} ]} Hwf) in Hp as [[? _] _].
Defined.

Lemma same_rows_twice_witness :
  ∃ st2,
    SetMetrics (host_run host_rows_name_case).1 host_rows_name_case
      = (st2, inr (touched_keys (host_run host_rows_name_case).2)) ∧
    Result st2 = Result (host_run host_rows_name_case).1.
Proof.
  assert (SetMetrics (NewQueryResult host_query [] ∅) host_rows_name_case
          = ((host_run host_rows_name_case).1,
             inr (touched_keys (host_run host_rows_name_case).2))) as Hfirst
    by by_compute.
  destruct (same_rows_twice _ _ _ _ Hfirst) as (st2 & Hrun & HR & _).
  exists st2. by split.
Defined.

Lemma metric_name_override_witness :
  query (multiColumnVars (NewQueryResult named_query [] ∅) (mkRowVars ∅ VNil)
                         "Name" (VString "cpu load")).1
  = with_name named_query (sanitize_two_passes "cpu load").
Proof.
  apply (metric_name_override (NewQueryResult named_query [] ∅) (mkRowVars ∅ VNil)
           "Name" "cpu load"); by_compute.
Defined.

Lemma region_example_every_order_witness :
  (region_run false [("cpu", VInt 10); ("mem", VInt 20); ("region", VString "eu")]).2
    = inl (UnsupportedValueType VNil)
  ∨ size (Result (region_run false
            [("cpu", VInt 10); ("mem", VInt 20); ("region", VString "eu")]).1) = 3%nat.
Proof.
  assert (region_row ≡ₚ [("cpu", VInt 10); ("mem", VInt 20); ("region", VString "eu")])
    as Hp by by_compute.
  destruct (region_example_every_order _ Hp) as [_ [[Herr _]|(_ & _ & Hsize)]];
    [by left|by right].
Defined.

(** C7, as the specification words it, fails: stripping the characters
    outside [[A-Za-z0-9_]] first would drop the blank of ["cpu load"],
    and the name that the column gives keeps it as an underscore. *)
Lemma metric_name_override_counterexample :
  Name (query (multiColumnVars (NewQueryResult named_query [] ∅) (mkRowVars ∅ VNil)
                               "name" (VString "cpu load")).1) = "cpu_load" ∧
  sanitize_as_specified "cpu load" = "cpuload" ∧
  sanitize_two_passes "cpu load" = "cpu_load".
Proof. by_compute. Qed.

(** C8, for the Go rows, fails: the same row with two columns [Host] and
    [host], visited in the other order the second time, gives another
    facet key; the touched set is another one and a second gauge is
    registered. *)
Lemma same_rows_twice_counterexample :
  same_batch host_row_collision_1 host_row_collision_2 ∧
  (host_run host_row_collision_1).2
    = inr {[ resultKey {[ "host" := VString "b" ]} ]} ∧
  (SetMetrics (host_run host_row_collision_1).1 host_row_collision_2).2
    = inr {[ resultKey {[ "host" := VString "a" ]} ]} ∧
  resultKey {[ "host" := VString "a" ]} ≠ resultKey {[ "host" := VString "b" ]} ∧
  length (gauges (host_run host_row_collision_1).1) = 1%nat ∧
  length (gauges (SetMetrics (host_run host_row_collision_1).1
                             host_row_collision_2).1) = 2%nat.
Proof.
  split; [|by_compute].
  constructor; [apply perm_swap|constructor].
Qed.

(** * The further properties on concrete rows *)

Lemma set_then_read_witness :
  ∃ p g,
    Result (registerAndSet (NewQueryResult host_query [] ∅) ∅
              {[ "host" := VString "a" ]} (VInt 7)).1
      !! resultKey {[ "host" := VString "a" ]} = Some p ∧
    gauges (registerAndSet (NewQueryResult host_query [] ∅) ∅
              {[ "host" := VString "a" ]} (VInt 7)).1 !! p = Some g ∧
    coerce (VInt 7) = inr (gValue g).
Proof.
  destruct (set_then_read (NewQueryResult host_query [] ∅) ∅
              {[ "host" := VString "a" ]} (VInt 7)
              (registerAndSet (NewQueryResult host_query [] ∅) ∅
                 {[ "host" := VString "a" ]} (VInt 7)).1
              {[ resultKey {[ "host" := VString "a" ]} ]})
    as (p & g & f & Hc & HR & Hg & Hv & _); [by_compute|].
  exists p, g. rewrite Hv. exact (conj HR (conj Hg Hc)).
Defined.

Lemma failed_set_keeps_registration_witness :
  registerAndSet (NewQueryResult host_query [] ∅) ∅
                 {[ "host" := VString "a" ]} (VBool true)
  = ((registerMetric (NewQueryResult host_query [] ∅)
                     {[ "host" := VString "a" ]}).1,
     inl (UnsupportedValueType (VBool true))) ∧
  is_Some (Result (registerMetric (NewQueryResult host_query [] ∅)
                                  {[ "host" := VString "a" ]}).1
           !! resultKey {[ "host" := VString "a" ]}).
Proof.
  pose proof (failed_set_keeps_registration (NewQueryResult host_query [] ∅) ∅
                {[ "host" := VString "a" ]} (VBool true)
                (UnsupportedValueType (VBool true)) eq_refl) as (Hrun & Hsome & _).
  by split.
Defined.

Lemma reachable_state_invariant_witness :
  reachable (host_run host_rows_value_case).1 ∧
  well_formed (host_run host_rows_value_case).1 ∧
  labelled (host_run host_rows_value_case).1.
Proof.
  assert (reachable (host_run host_rows_value_case).1) as Hreach
    by apply reachable_set, reachable_new.
  split; [done|].
  pose proof (reachable_state_invariant _ Hreach) as (Hwf & Hlab & _).
  by split.
Defined.

Lemma query_unchanged_witness :
  query (region_run false region_row).1 = region_query false.
Proof.
  apply (query_unchanged (NewQueryResult (region_query false) [] ∅) [region_row]).
  right. by_compute.
Defined.

Lemma mixed_case_DataMetric_never_overrides_witness :
  query (SetMetrics (NewQueryResult mixed_metric_query [] ∅)
                    [[("Name", VString "cpu"); ("load", VInt 1)]]).1
  = mixed_metric_query.
Proof.
  apply (mixed_case_DataMetric_never_overrides
           (NewQueryResult mixed_metric_query [] ∅)
           [[("Name", VString "cpu"); ("load", VInt 1)]]).
  by_compute.
Defined.

Lemma reap_leaves_touched_witness :
  dom (Result (RemoveMissingMetrics (host_run host_rows_value_case).1
                 (touched_keys (host_run host_rows_value_case).2)))
  = touched_keys (host_run host_rows_value_case).2.
Proof.
  apply (reap_leaves_touched (NewQueryResult host_query [] ∅) host_rows_value_case).
  by_compute.
Defined.

Lemma data_field_errors_witness :
  singleRow (NewQueryResult host_query [] ∅) ∅
            [("host", VString "a"); ("count", VInt 1)]
  = (NewQueryResult host_query [] ∅, inl DataFieldNotFound).
Proof.
  apply (data_field_errors (NewQueryResult host_query [] ∅) ∅
           [("host", VString "a"); ("count", VInt 1)]); by_compute.
Defined.

Lemma mixed_case_DataField_never_found_witness :
  singleRow (NewQueryResult mixed_field_query [] ∅) ∅
            [("host", VString "a"); ("Value", VInt 1)]
  = (NewQueryResult mixed_field_query [] ∅, inl DataFieldNotFound).
Proof.
  apply (mixed_case_DataField_never_found (NewQueryResult mixed_field_query [] ∅) ∅
           [("host", VString "a"); ("Value", VInt 1)]); [by_compute|simpl; lia].
Defined.

Lemma single_dimensional_order_independent_witness :
  SetMetrics (NewQueryResult host_query [] ∅)
             [[("host", VString "a"); ("value", VInt 1)]]
  = SetMetrics (NewQueryResult host_query [] ∅)
               [[("value", VInt 1); ("host", VString "a")]].
Proof.
  apply (single_dimensional_order_independent (NewQueryResult host_query [] ∅)
           [[("host", VString "a"); ("value", VInt 1)]]
           [[("value", VInt 1); ("host", VString "a")]]).
  - reflexivity.
  - constructor; [unfold lower_distinct; by_compute|constructor].
  - constructor; [apply perm_swap|constructor].
Defined.

Lemma label_first_fails_witness :
  multiRow (NewQueryResult (region_query false) [] ∅) ∅ region_row
  = ((registerMetric (NewQueryResult (region_query false) [] ∅)
                     {[ "region" := VString "eu" ]}).1,
     inl (UnsupportedValueType VNil)).
Proof.
  apply (label_first_fails (NewQueryResult (region_query false) [] ∅) ∅
           "region" (VString "eu") [("cpu", VInt 10); ("mem", VInt 20)]).
  - apply Exists_cons_hd. reflexivity.
  - by right.
Defined.

Lemma last_value_wins_witness :
  ∃ st2,
    registerAndSet (registerAndSet (NewQueryResult host_query [] ∅) ∅
                      {[ "host" := VString "a" ]} (VInt 1)).1
                   {[ resultKey {[ "host" := VString "a" ]} ]}
                   {[ "host" := VString "a" ]} (VInt 2)
    = (st2, inr {[ resultKey {[ "host" := VString "a" ]} ]}) ∧
    length (gauges st2) = 1%nat.
Proof.
  destruct (last_value_wins (NewQueryResult host_query [] ∅) ∅
              {[ "host" := VString "a" ]} (VInt 1) (VInt 2)
              (registerAndSet (NewQueryResult host_query [] ∅) ∅
                 {[ "host" := VString "a" ]} (VInt 1)).1
              {[ resultKey {[ "host" := VString "a" ]} ]}
              (float64_of_int 2))
    as (st2 & p & g & Hrun & _ & _ & Hlen & _); [by_compute|reflexivity|].
  exists st2. split; [exact Hrun|]. rewrite Hlen. by_compute.
Defined.

Lemma multi_column_kinds_witness :
  multiColumnVars (NewQueryResult named_query [] ∅) (mkRowVars ∅ VNil)
                  "Region" (VString "EU")
  = (NewQueryResult named_query [] ∅,
     mkRowVars (<[ "region" := VString "EU" ]> ∅) VNil).
Proof.
  destruct (multi_column_kinds (NewQueryResult named_query [] ∅) (mkRowVars ∅ VNil)
              "Region" (VString "EU")) as [Hlabel _].
  apply Hlabel, Exists_cons_hd. reflexivity.
Defined.
